(** * MP3LightShow: a shallow embedding of the Arduino sketch

    The sketch [MP3LightShow.ino] plays an audio track through an MP3 shield
    and drives a laser (pin 5) and an LED (pin 9) at fixed offsets from the
    start of the show, using one-shot timer events that are polled from
    [loop].

    The sketch is a set of [void] functions over global variables and
    peripherals.  It is embedded as a state monad over a [World] record that
    holds the globals, the peripherals, the clock, and a log of every call
    made on a peripheral. *)

From Stdlib Require Import ZArith List Bool Lia Strings.Byte.
From stdpp Require Import base option list gmap strings.

Local Open Scope Z_scope.

(** ** Peripherals and data *)

(** Logic levels of [digitalWrite]. *)
Inductive Level : Type := LOW | HIGH.

(** Pin modes of [pinMode]. *)
Inductive Mode : Type := INPUT | OUTPUT.

(** The functions of the sketch that are handed to the timer as callbacks
    (pointers to functions without argument or result).  Each constructor
    stands for the address of the function [lightShow_<name>]. *)
Inductive Callback : Type :=
| LasersWarmup
| LasersOn
| LEDOn
| LEDOff
| Pause
| Stop
| PlayTrack2.

(** Calls on peripherals, as they appear in the log. *)
Inductive Effect : Type :=
| PinMode (pin : Z) (mode : Mode)
| DigitalWrite (pin : Z) (level : Level)
| Delay (ms : Z)
| SerialBegin (baud : Z)
| SerialPrint (s : string)
| SerialPrintNum (n : Z)
| SerialPrintln (s : string)
| PlayMP3 (trackName : string) (offset : Z)
| TimerAfter (period : Z) (callback : Callback).

#[global] Instance Level_eq_dec : EqDecision Level.
Proof. solve_decision. Defined.
#[global] Instance Mode_eq_dec : EqDecision Mode.
Proof. solve_decision. Defined.
#[global] Instance Callback_eq_dec : EqDecision Callback.
Proof. solve_decision. Defined.
#[global] Instance Effect_eq_dec : EqDecision Effect.
Proof. solve_decision. Defined.

(** Modelled from the spec: the Event Scheduler.  The sketch uses the object
    [Timer t] of the Timer library ([Timer.h], [Event.h]), which is not part
    of the repository.  Following the spec's data model, a scheduled event is
    a one-shot callback with an absolute deadline on the monotonic
    millisecond clock; [handle] is the value returned when it was
    registered. *)
Record ScheduledEvent : Type := {
  handle : Z;
  deadline : Z;
  action : Callback
}.

(** Modelled from the spec: the scheduler state, the pending events in
    registration order and the next handle to give out. *)
Record Timer : Type := {
  events : list ScheduledEvent;
  next_handle : Z
}.

#[global] Instance ScheduledEvent_eq_dec : EqDecision ScheduledEvent.
Proof. solve_decision. Defined.

Definition Timer_empty : Timer := {| events := []; next_handle := 0 |}.

(** The double quote character, for the one message that has it. *)
Definition quote : string := String (Ascii.ascii_of_nat 34) EmptyString.

(** Pins of the sketch: [int laser = 5; int led = 9;]. *)
Definition laser : Z := 5.
Definition led : Z := 9.

(** The SD card and the MP3 shield (the objects [sd] and [MP3player] of the
    SdFat and SFEMP3Shield libraries) are external.  [Board] is their joint
    state; each call returns its result and the next state.  Status codes are
    [uint8_t] values, 0 for success. *)
Class Shield (Board : Type) : Type := {
  FreeRam : Board -> Z;
  sd_begin : Board -> bool * Board;
  sd_chdir : string -> Board -> bool * Board;
  MP3player_begin : Board -> Z * Board;
  MP3player_playMP3 : string -> Z -> Board -> Z * Board;
  MP3player_available : Board -> Board;
  (* whether [USE_MP3_REFILL_MEANS] selects a polled refill; by default the
     shield is interrupt driven and [loop] does not service it *)
  USE_MP3_Polled : bool
}.

Section Sketch.

Context `{Shield Board}.

(** The globals of the sketch with the peripherals they act on.  The clock
    moves on in [delay] and between two passes of [loop]; the time taken by
    the other statements is not counted. *)
Record World : Type := {
  isLightShowPlaying : bool;
  isAutoStartEnabled : bool;
  t : Timer;
  board : Board;
  pins : gmap Z Level;       (* last level written to each pin *)
  millis : Z;                (* the millisecond clock *)
  serial_in : list byte;     (* bytes received and not yet read *)
  trace : list Effect        (* calls on peripherals, most recent first *)
}.

(** The calls on peripherals in the order they were made. *)
Definition history (w : World) : list Effect := rev (trace w).

(** *** The monad of sketch code *)

Definition Sketch (A : Type) : Type := World -> A * World.

Definition ret {A} (a : A) : Sketch A := fun w => (a, w).

Definition bind {A B} (m : Sketch A) (k : A -> Sketch B) : Sketch B :=
  fun w => k (fst (m w)) (snd (m w)).

Definition exec {A} (m : Sketch A) (w : World) : World := snd (m w).

Definition eval {A} (m : Sketch A) (w : World) : A := fst (m w).

Declare Scope sketch_scope.
Delimit Scope sketch_scope with sketch.
Bind Scope sketch_scope with Sketch.
Notation "x <- m ;; k" := (bind m (fun x => k))
  (at level 100, m at next level, k at level 200, right associativity)
  : sketch_scope.
Notation "m ;; k" := (bind m (fun _ => k))
  (at level 100, k at level 200, right associativity) : sketch_scope.
Local Open Scope sketch_scope.

Definition when (b : bool) (m : Sketch unit) : Sketch unit :=
  if b then m else ret tt.

(** *** Globals *)

Definition set_isLightShowPlaying (b : bool) : Sketch unit := fun w =>
  (tt, {| isLightShowPlaying := b;
          isAutoStartEnabled := isAutoStartEnabled w;
          t := t w; board := board w; pins := pins w; millis := millis w;
          serial_in := serial_in w; trace := trace w |}).

Definition set_isAutoStartEnabled (b : bool) : Sketch unit := fun w =>
  (tt, {| isLightShowPlaying := isLightShowPlaying w;
          isAutoStartEnabled := b;
          t := t w; board := board w; pins := pins w; millis := millis w;
          serial_in := serial_in w; trace := trace w |}).

(** *** Primitives of the Arduino core *)

Definition emit (e : Effect) (w : World) : World :=
  {| isLightShowPlaying := isLightShowPlaying w;
     isAutoStartEnabled := isAutoStartEnabled w;
     t := t w; board := board w; pins := pins w; millis := millis w;
     serial_in := serial_in w; trace := e :: trace w |}.

Definition pinMode (pin : Z) (mode : Mode) : Sketch unit :=
  fun w => (tt, emit (PinMode pin mode) w).

Definition digitalWrite (pin : Z) (level : Level) : Sketch unit := fun w =>
  (tt, {| isLightShowPlaying := isLightShowPlaying w;
          isAutoStartEnabled := isAutoStartEnabled w;
          t := t w; board := board w;
          pins := <[pin := level]> (pins w);
          millis := millis w;
          serial_in := serial_in w;
          trace := DigitalWrite pin level :: trace w |}).

(** [delay(ms)] blocks: the clock moves on by [ms]. *)
Definition delay (ms : Z) : Sketch unit := fun w =>
  (tt, {| isLightShowPlaying := isLightShowPlaying w;
          isAutoStartEnabled := isAutoStartEnabled w;
          t := t w; board := board w; pins := pins w;
          millis := millis w + ms;
          serial_in := serial_in w;
          trace := Delay ms :: trace w |}).

Definition Serial_begin (baud : Z) : Sketch unit :=
  fun w => (tt, emit (SerialBegin baud) w).
Definition Serial_print (s : string) : Sketch unit :=
  fun w => (tt, emit (SerialPrint s) w).
Definition Serial_print_num (n : Z) : Sketch unit :=
  fun w => (tt, emit (SerialPrintNum n) w).
Definition Serial_println (s : string) : Sketch unit :=
  fun w => (tt, emit (SerialPrintln s) w).

Definition Serial_available : Sketch bool := fun w =>
  (match serial_in w with [] => false | _ :: _ => true end, w).

(** [Serial.read()] is only called after [Serial.available()]; on an empty
    buffer the Arduino core returns -1, which [parse_menu] receives as the
    byte 0xff. *)
Definition Serial_read : Sketch byte := fun w =>
  match serial_in w with
  | [] => (xff, w)
  | b :: rest =>
      (b, {| isLightShowPlaying := isLightShowPlaying w;
             isAutoStartEnabled := isAutoStartEnabled w;
             t := t w; board := board w; pins := pins w;
             millis := millis w; serial_in := rest; trace := trace w |})
  end.

Definition with_board (b : Board) (w : World) : World :=
  {| isLightShowPlaying := isLightShowPlaying w;
     isAutoStartEnabled := isAutoStartEnabled w;
     t := t w; board := b; pins := pins w; millis := millis w;
     serial_in := serial_in w; trace := trace w |}.

(** [MP3player.playMP3(trackName, offset)]: the status code comes from the
    shield (0 is success). *)
Definition playMP3 (trackName : string) (offset : Z) : Sketch Z := fun w =>
  let r := MP3player_playMP3 trackName offset (board w) in
  (fst r, emit (PlayMP3 trackName offset) (with_board (snd r) w)).

(** Modelled from the spec: [schedule(delayMs, action)], the sketch's
    [t.after(period, callback)].  The event is due [period] milliseconds
    after the call and is appended to the pending events; the call returns
    the event's handle. *)
Definition Timer_after (period : Z) (callback : Callback) : Sketch Z :=
  fun w =>
    let h := next_handle (t w) in
    (h, {| isLightShowPlaying := isLightShowPlaying w;
           isAutoStartEnabled := isAutoStartEnabled w;
           t := {| events := events (t w) ++
                     [{| handle := h; deadline := millis w + period;
                         action := callback |}];
                   next_handle := h + 1 |};
           board := board w; pins := pins w; millis := millis w;
           serial_in := serial_in w;
           trace := TimerAfter period callback :: trace w |}).

Definition with_events (l : list ScheduledEvent) (w : World) : World :=
  {| isLightShowPlaying := isLightShowPlaying w;
     isAutoStartEnabled := isAutoStartEnabled w;
     t := {| events := l; next_handle := next_handle (t w) |};
     board := board w; pins := pins w; millis := millis w;
     serial_in := serial_in w; trace := trace w |}.

(** ** The sketch *)

(** One pass of the loop body of [laserFlicker]. *)
Definition laserFlicker_body : Sketch unit :=
  digitalWrite laser HIGH ;;
  delay 25 ;;
  digitalWrite laser LOW ;;
  delay 50 ;;
  digitalWrite laser HIGH ;;
  delay 25 ;;
  digitalWrite laser LOW ;;
  delay 50 ;;
  digitalWrite laser HIGH ;;
  delay 25 ;;
  digitalWrite laser LOW ;;
  delay 150.

(** [for (int i = 0; i < pulses; i++) { ... }], from counter value [i].
    [fuel] bounds the number of passes; [laserFlicker] gives as many as the
    loop can make ([laserFlicker_for_fuel] below shows that more fuel
    changes nothing).  [i] never exceeds [pulses], so the 16-bit [i++]
    does not wrap. *)
Fixpoint laserFlicker_for (fuel : nat) (i pulses : Z) : Sketch unit :=
  match fuel with
  | O => ret tt
  | S fuel' =>
      if i <? pulses
      then laserFlicker_body ;; laserFlicker_for fuel' (i + 1) pulses
      else ret tt
  end.

Definition laserFlicker (pulses : Z) : Sketch unit :=
  laserFlicker_for (Z.to_nat pulses) 0 pulses.

Definition lightShow_LasersWarmup : Sketch unit :=
  Serial_println "Warming up lasers" ;;
  laserFlicker 3 ;;
  delay 1000 ;;
  laserFlicker 2 ;;
  delay 500 ;;
  laserFlicker 5 ;;
  delay 200 ;;
  laserFlicker 2 ;;
  delay 500 ;;
  laserFlicker 2 ;;
  delay 50 ;;
  digitalWrite laser HIGH ;;
  delay 1000 ;;
  laserFlicker 3 ;;
  delay 500 ;;
  laserFlicker 3 ;;
  digitalWrite laser HIGH ;;
  laserFlicker 3 ;;
  digitalWrite laser HIGH.

Definition lightShow_LasersOn : Sketch unit :=
  Serial_println "Lasers ON" ;;
  digitalWrite laser HIGH.

Definition lightShow_LEDOn : Sketch unit :=
  Serial_println "LED ON" ;;
  digitalWrite led HIGH.

Definition lightShow_LEDOff : Sketch unit :=
  Serial_println "LED OFF" ;;
  digitalWrite led LOW.

Definition lightShow_Pause : Sketch unit :=
  Serial_println "Pausing light show" ;;
  digitalWrite laser LOW ;;
  digitalWrite led LOW.

Definition lightShow_Stop : Sketch unit :=
  set_isLightShowPlaying false ;;
  Serial_println "Stopping light show" ;;
  digitalWrite laser LOW ;;
  digitalWrite led LOW.

Definition lightShow_PlayTrack2 : Sketch unit :=
  let offset := 0 in
  let trackName := "track002.mp3" in
  Serial_println "Playing audio" ;;
  result <- playMP3 trackName offset ;;
  when (negb (result =? 0))
    (Serial_print "Error code: " ;;
     Serial_print_num result ;;
     Serial_println " when trying to play track").

(** Calling through a callback pointer. *)
Definition call (f : Callback) : Sketch unit :=
  match f with
  | LasersWarmup => lightShow_LasersWarmup
  | LasersOn => lightShow_LasersOn
  | LEDOn => lightShow_LEDOn
  | LEDOff => lightShow_LEDOff
  | Pause => lightShow_Pause
  | Stop => lightShow_Stop
  | PlayTrack2 => lightShow_PlayTrack2
  end.

(** Modelled from the spec: an event is due once the clock has reached its
    deadline. *)
Definition due (now : Z) (e : ScheduledEvent) : bool := deadline e <=? now.

(** Modelled from the spec: the firing order of [poll()], earliest deadline
    first and registration order among equal deadlines. *)
Fixpoint insert_by_deadline (e : ScheduledEvent) (l : list ScheduledEvent)
  : list ScheduledEvent :=
  match l with
  | [] => [e]
  | x :: rest =>
      if deadline e <=? deadline x then e :: l
      else x :: insert_by_deadline e rest
  end.

Definition deadline_order (l : list ScheduledEvent) : list ScheduledEvent :=
  fold_right insert_by_deadline [] l.

(** Modelled from the spec: [poll()], the sketch's [t.update()].  Every
    pending event that is due leaves the pending collection and its action
    runs once, in [deadline_order]. *)
Definition Timer_update : Sketch unit := fun w =>
  let now := millis w in
  let fired := deadline_order (List.filter (due now) (events (t w))) in
  let pending := List.filter (fun e => negb (due now e)) (events (t w)) in
  (tt, fold_left (fun w' e => exec (call (action e)) w') fired
         (with_events pending w)).

Definition lightShow_Start : Sketch unit :=
  set_isLightShowPlaying true ;;
  Serial_println "Starting light show sequence..." ;;
  let offset := 0 in
  let stage1 := 7000 in   (* lasers warm up *)
  let stage2 := 27500 in  (* led on *)
  let stage3 := 40000 in  (* lasers on *)
  let stage4 := 44000 in  (* pause all *)
  let stage5 := 45000 in  (* resume all *)
  let stage6 := 58000 in  (* led off *)
  let stage7 := 110000 in (* lasers off *)
  let stage8 := 140000 in (* start second track *)
  let trackName := "track001.mp3" in
  Serial_println "Playing audio" ;;
  result <- playMP3 trackName offset ;;
  when (negb (result =? 0))
    (Serial_print "Error code: " ;;
     Serial_print_num result ;;
     Serial_println " when trying to play track") ;;
  stage1Event <- Timer_after stage1 LasersWarmup ;;
  stage2Event <- Timer_after stage2 LEDOn ;;
  stage3Event <- Timer_after stage3 LasersOn ;;
  stage4Event <- Timer_after stage4 Pause ;;
  stage5Event <- Timer_after stage5 LEDOn ;;
  stage5Event2 <- Timer_after stage5 LasersOn ;;
  stage6Event <- Timer_after stage6 LEDOff ;;
  stage7Event <- Timer_after stage7 Stop ;;
  stage8Event <- Timer_after stage8 PlayTrack2 ;;
  ret tt.

Definition parse_menu (key_command : byte) : Sketch unit :=
  when (Byte.eqb key_command "v"%byte) lightShow_Start.

(** The part of [loop] before the auto-start test: refill the shield when
    it is polled, dispatch one received byte, poll the timer. *)
Definition loop_service : Sketch unit :=
  when USE_MP3_Polled
    (fun w => (tt, with_board (MP3player_available (board w)) w)) ;;
  available <- Serial_available ;;
  when available (key <- Serial_read ;; parse_menu key) ;;
  Timer_update.

(** The test of the auto-start path,
    [isLightShowPlaying == false && isAutoStartEnabled == true]. *)
Definition autostart_due (w : World) : bool :=
  Bool.eqb (isLightShowPlaying w) false &&
  Bool.eqb (isAutoStartEnabled w) true.

Definition loop_autostart : Sketch unit :=
  fun w =>
    when (autostart_due w)
      (lightShow_Start ;;
       set_isAutoStartEnabled false) w.

Definition loop : Sketch unit :=
  loop_service ;;
  loop_autostart.

(** [setup()].  [None] stands for a halt: [sd.initErrorHalt()] and
    [sd.errorHalt()] do not return. *)
Definition setup (w : World) : option World :=
  let w :=
    exec (pinMode 2 OUTPUT ;;
          pinMode 3 OUTPUT ;;
          pinMode 4 OUTPUT ;;
          pinMode laser OUTPUT ;;
          pinMode led OUTPUT ;;
          pinMode 6 OUTPUT ;;
          pinMode 7 OUTPUT ;;
          pinMode 8 OUTPUT ;;
          pinMode 10 OUTPUT ;;
          pinMode 11 OUTPUT ;;
          pinMode 12 OUTPUT ;;
          pinMode 13 OUTPUT ;;
          set_isLightShowPlaying false ;;
          Serial_begin 115200 ;;
          Serial_print "Free RAM = " ;;
          (fun w => Serial_print_num (FreeRam (board w)) w) ;;
          Serial_println
            " Should be a base line of 1040, on ATmega328 when using INTx")
      w in
  let began := sd_begin (board w) in
  if negb (fst began) then None
  else
    let changed := sd_chdir "/" (snd began) in
    if negb (fst changed) then None
    else
      let started := MP3player_begin (snd changed) in
      let result := fst started in
      Some (exec
              (when (negb (result =? 0))
                 (Serial_print "Error code: " ;;
                  Serial_print_num result ;;
                  Serial_println " when trying to start MP3 player" ;;
                  when (result =? 6)
                    (Serial_println
                       "Warning: patch file not found, skipping." ;;
                     Serial_println
                       ("Use the " +:+ quote +:+ "d" +:+ quote +:+
                        " command to verify SdCard can be read"))))
              (with_board (snd started) w)).

(** ** Runs of the sketch *)

(** The globals as the C++ runtime initialises them before [setup()]:
    [isLightShowPlaying] is zero-initialised, [isAutoStartEnabled = true],
    the timer has no event. *)
Definition boot (b : Board) : World :=
  {| isLightShowPlaying := false;
     isAutoStartEnabled := true;
     t := Timer_empty;
     board := b;
     pins := ∅;
     millis := 0;
     serial_in := [];
     trace := [] |}.

(** What the environment does between two passes of [loop]: time goes by
    and bytes arrive on the serial line. *)
Record Tick : Type := {
  elapsed : N;
  received : list byte
}.

Definition arrive (k : Tick) (w : World) : World :=
  {| isLightShowPlaying := isLightShowPlaying w;
     isAutoStartEnabled := isAutoStartEnabled w;
     t := t w; board := board w; pins := pins w;
     millis := millis w + Z.of_N (elapsed k);
     serial_in := serial_in w ++ received k;
     trace := trace w |}.

(** The Arduino core calls [loop()] for ever; [run ticks] is the prefix with
    one pass per tick. *)
Fixpoint run (ticks : list Tick) (w : World) : World :=
  match ticks with
  | [] => w
  | k :: rest => run rest (exec loop (arrive k w))
  end.

(** How many passes of [run ticks] took the auto-start path. *)
Fixpoint autostarts (ticks : list Tick) (w : World) : nat :=
  match ticks with
  | [] => O
  | k :: rest =>
      ((if autostart_due (exec loop_service (arrive k w)) then 1 else 0)
       + autostarts rest (exec loop (arrive k w)))%nat
  end.

End Sketch.

Arguments World Board : clear implicits.
Arguments Sketch Board A : clear implicits.

(** ** A test bench

    A board for closed examples: an SD card holding a list of files and a
    shield that plays one track at a time.  [playMP3] answers 1 while a track
    is playing, 2 when the file is not on the card and 0 otherwise. *)
Module Bench.

Record Card : Type := {
  files : list string;
  playing : option string
}.

Definition play (trackName : string) (offset : Z) (c : Card) : Z * Card :=
  match playing c with
  | Some _ => (1, c)
  | None =>
      if bool_decide (trackName ∈ files c)
      then (0, {| files := files c; playing := Some trackName |})
      else (2, c)
  end.

#[global] Instance shield : Shield Card := {|
  FreeRam := fun _ => 1040;
  sd_begin := fun c => (true, c);
  sd_chdir := fun _ c => (true, c);
  MP3player_begin := fun c => (0, c);
  MP3player_playMP3 := play;
  MP3player_available := fun c => c;
  USE_MP3_Polled := false
|}.

(** A card with both tracks of the show, and a blank card. *)
Definition full : Card :=
  {| files := ["track001.mp3"; "track002.mp3"]; playing := None |}.
Definition blank : Card := {| files := []; playing := None |}.

(** A pass of [loop] after [ms] milliseconds without input, and one that
    receives the command [v]. *)
Definition idle (ms : N) : Tick := {| elapsed := ms; received := [] |}.
Definition press_v (ms : N) : Tick :=
  {| elapsed := ms; received := ["v"%byte] |}.

End Bench.

(** ** Words of the spec used in the statements *)

(** The stage table as the spec gives it (section 3, data model): offsets in
    milliseconds from the start of the show, with the action of each
    stage.  It is compared below with what [lightShow_Start] registers. *)
Definition spec_stage_table : list (Z * Callback) :=
  [ (7000, LasersWarmup);
    (27500, LEDOn);
    (40000, LasersOn);
    (44000, Pause);
    (45000, LEDOn);
    (45000, LasersOn);
    (58000, LEDOff);
    (110000, Stop);
    (140000, PlayTrack2) ].

(** The pending events that registering the rows of a table at time [now]
    adds, when the next free handle is [h]. *)
Fixpoint scheduled (now h : Z) (table : list (Z * Callback))
  : list ScheduledEvent :=
  match table with
  | [] => []
  | (offset, f) :: rest =>
      {| handle := h; deadline := now + offset; action := f |}
        :: scheduled now (h + 1) rest
  end.

(** The serial report of a status code: nothing on success. *)
Definition report (code : Z) (what : string) : list Effect :=
  if code =? 0 then []
  else [SerialPrint "Error code: "; SerialPrintNum code; SerialPrintln what].

(** The calls of a show start whose request to the shield returns [code]:
    the request for the first track, the report of the code and the
    registration of the table's rows. *)
Definition start_log (code : Z) : list Effect :=
  [ SerialPrintln "Starting light show sequence...";
    SerialPrintln "Playing audio";
    PlayMP3 "track001.mp3" 0 ] ++
  report code " when trying to play track" ++
  map (fun row => TimerAfter (fst row) (snd row)) spec_stage_table.

(** The level of the most recent write to [pin] in a trace (most recent
    first). *)
Fixpoint last_write (pin : Z) (tr : list Effect) : option Level :=
  match tr with
  | [] => None
  | DigitalWrite p l :: rest =>
      if p =? pin then Some l else last_write pin rest
  | _ :: rest => last_write pin rest
  end.

(** One cycle of the flicker pattern as the spec gives it: the laser is
    held HIGH 25 ms, LOW 50 ms, HIGH 25 ms, LOW 50 ms, HIGH 25 ms and
    LOW 150 ms. *)
Definition spec_flicker_cycle : list Effect :=
  [ DigitalWrite 5 HIGH; Delay 25;
    DigitalWrite 5 LOW; Delay 50;
    DigitalWrite 5 HIGH; Delay 25;
    DigitalWrite 5 LOW; Delay 50;
    DigitalWrite 5 HIGH; Delay 25;
    DigitalWrite 5 LOW; Delay 150 ].

(** The registrations with the timer in a log. *)
Definition registrations (log : list Effect) : list (Z * Callback) :=
  omap (fun e => match e with
                 | TimerAfter period f => Some (period, f)
                 | _ => None
                 end) log.

(** The requests to the shield in a log. *)
Definition requests (log : list Effect) : list (string * Z) :=
  omap (fun e => match e with
                 | PlayMP3 trackName offset => Some (trackName, offset)
                 | _ => None
                 end) log.

(** The writes of a given level to [pin] in a log. *)
Definition writes (pin : Z) (level : Level) (log : list Effect) : nat :=
  length (List.filter
            (fun e => bool_decide (e = DigitalWrite pin level)) log).

(** ** Notions used in the statements *)

(** [keeps proj m]: running [m] does not change the part [proj] of the
    world. *)
Definition keeps {Board X A} (proj : World Board -> X) (m : Sketch Board A)
  : Prop :=
  forall w, proj (exec m w) = proj w.

(** Serial output, the only place where a status code shows. *)
Definition is_serial_output (e : Effect) : bool :=
  match e with
  | SerialPrint _ | SerialPrintNum _ | SerialPrintln _ => true
  | _ => false
  end.

(** The calls of a trace other than serial output: pin writes, delays,
    requests to the shield and timer registrations. *)
Definition show_log (tr : list Effect) : list Effect :=
  List.filter (fun e => negb (is_serial_output e)) tr.

(** Two worlds, possibly on different boards, show the same: same flags,
    same timer, same pins, same clock, same pending input and the same calls
    apart from serial output. *)
Definition same_show {B1 B2} (w1 : World B1) (w2 : World B2) : Prop :=
  isLightShowPlaying w1 = isLightShowPlaying w2 /\
  isAutoStartEnabled w1 = isAutoStartEnabled w2 /\
  t w1 = t w2 /\
  pins w1 = pins w2 /\
  millis w1 = millis w2 /\
  serial_in w1 = serial_in w2 /\
  show_log (trace w1) = show_log (trace w2).

(** [sim m1 m2]: from worlds that show the same, [m1] and [m2] lead to worlds
    that show the same; [sim_val] when they also return the same value. *)
Definition sim {B1 B2 A1 A2} (m1 : Sketch B1 A1) (m2 : Sketch B2 A2) : Prop :=
  forall w1 w2, same_show w1 w2 -> same_show (exec m1 w1) (exec m2 w2).

Definition sim_val {B1 B2 A} (m1 : Sketch B1 A) (m2 : Sketch B2 A) : Prop :=
  forall w1 w2, same_show w1 w2 ->
    same_show (exec m1 w1) (exec m2 w2) /\ eval m1 w1 = eval m2 w2.

(** [quiet m]: [m] changes nothing of what the world shows. *)
Definition quiet {B A} (m : Sketch B A) : Prop :=
  forall w, same_show (exec m w) w.

(** ** Notions used in the further properties *)

(** [n] flicker cycles in a row. *)
Definition flickers (n : nat) : list Effect :=
  concat (replicate n spec_flicker_cycle).

(** The requests for the first track in a log: one per start of the show. *)
Definition is_start_request (e : Effect) : bool :=
  match e with
  | PlayMP3 trackName offset =>
      String.eqb trackName "track001.mp3" && (offset =? 0)
  | _ => false
  end.

Definition starts (log : list Effect) : nat :=
  length (List.filter is_start_request log).

(** The next byte to be read is the command [v]. *)
Definition command_due {Board} (w : World Board) : bool :=
  match serial_in w with
  | [] => false
  | key :: _ => Byte.eqb key "v"%byte
  end.

(** How many passes of [run ticks] read the command [v]. *)
Fixpoint commands `{Shield Board} (ticks : list Tick) (w : World Board) : nat :=
  match ticks with
  | [] => O
  | k :: rest =>
      ((if command_due (arrive k w) then 1 else 0)
       + commands rest (exec loop (arrive k w)))%nat
  end.





(** The pins that [setup] makes outputs, in the order of its calls. *)
Definition setup_pins : list Z := [2; 3; 4; 5; 9; 6; 7; 8; 10; 11; 12; 13].

(** The serial report of [setup] for the status code of
    [MP3player.begin()]. *)
Definition begin_report (code : Z) : list Effect :=
  if code =? 0 then []
  else
    [ SerialPrint "Error code: "; SerialPrintNum code;
      SerialPrintln " when trying to start MP3 player" ] ++
    (if code =? 6
     then [ SerialPrintln "Warning: patch file not found, skipping.";
            SerialPrintln ("Use the " +:+ quote +:+ "d" +:+ quote +:+
                           " command to verify SdCard can be read") ]
     else []).

(** ** Properties *)

Section Facts.

Context `{Shield Board}.
Implicit Types (w : World Board) (f : Callback).

(** *** Sequencing *)

Lemma exec_bind {A B} (m : Sketch Board A) (k : A -> Sketch Board B) w :
  exec (bind m k) w = exec (k (eval m w)) (exec m w).
Proof. reflexivity. Qed.

(** *** Frame conditions *)

Lemma keeps_ret {X A} (proj : World Board -> X) (a : A) : keeps proj (ret a).
Proof. intros w. reflexivity. Qed.

Lemma keeps_bind {X A B} (proj : World Board -> X)
    (m : Sketch Board A) (k : A -> Sketch Board B) :
  keeps proj m -> (forall a, keeps proj (k a)) -> keeps proj (bind m k).
Proof.
  intros Hm Hk w. rewrite exec_bind, Hk. apply Hm.
Qed.

Lemma keeps_when {X} (proj : World Board -> X) b (m : Sketch Board unit) :
  keeps proj m -> keeps proj (when b m).
Proof. intros Hm w. destruct b; [apply Hm | reflexivity]. Qed.

Lemma keeps_laserFlicker_for {X} (proj : World Board -> X) fuel i pulses :
  keeps proj laserFlicker_body -> keeps proj (laserFlicker_for fuel i pulses).
Proof.
  intros Hbody. revert i.
  induction fuel as [|fuel IH]; intros i; simpl.
  - apply keeps_ret.
  - destruct (i <? pulses).
    + apply keeps_bind; [exact Hbody | intros _; apply IH].
    + apply keeps_ret.
Qed.

Lemma keeps_laserFlicker {X} (proj : World Board -> X) pulses :
  keeps proj laserFlicker_body -> keeps proj (laserFlicker pulses).
Proof. apply keeps_laserFlicker_for. Qed.

(** Frame conditions by taking the code apart: sequences, conditionals and
    flickers by the lemmas above, single calls by evaluation. *)
Ltac frame :=
  repeat first
    [ apply keeps_bind; [| intros ?]
    | apply keeps_when
    | apply keeps_laserFlicker
    | apply keeps_ret
    | (intros ?; reflexivity) ].

Lemma call_keeps_isAutoStartEnabled f : keeps isAutoStartEnabled (call f).
Proof. destruct f; unfold call; frame. Qed.

Lemma call_keeps_isLightShowPlaying f :
  f <> Stop -> keeps isLightShowPlaying (call f).
Proof. intros Hf. destruct f; try congruence; unfold call; frame. Qed.

(** *** The flicker helper *)

Lemma laserFlicker_body_exec w :
  exec laserFlicker_body w =
  {| isLightShowPlaying := isLightShowPlaying w;
     isAutoStartEnabled := isAutoStartEnabled w;
     t := t w;
     board := board w;
     pins := <[laser := LOW]> (<[laser := HIGH]> (<[laser := LOW]>
               (<[laser := HIGH]> (<[laser := LOW]> (<[laser := HIGH]>
                  (pins w))))));
     millis := millis w + 25 + 50 + 25 + 50 + 25 + 150;
     serial_in := serial_in w;
     trace := rev spec_flicker_cycle ++ trace w |}.
Proof. reflexivity. Qed.

(** The loop of [laserFlicker] makes [pulses - i] passes when it has the
    fuel for them, and stops because its test [i < pulses] fails. *)
Lemma laserFlicker_for_passes fuel i pulses w :
  (Z.to_nat (pulses - i) <= fuel)%nat ->
  exec (laserFlicker_for fuel i pulses) w =
  Nat.iter (Z.to_nat (pulses - i)) (exec laserFlicker_body) w.
Proof.
  revert i w.
  induction fuel as [|fuel IH]; intros i w Hfuel; simpl.
  - replace (Z.to_nat (pulses - i)) with O by lia. reflexivity.
  - destruct (Z.ltb_spec i pulses) as [Hlt|Hge].
    + rewrite exec_bind, IH by lia.
      replace (Z.to_nat (pulses - i)) with (S (Z.to_nat (pulses - (i + 1))))
        by lia.
      by rewrite Nat.iter_succ_r.
    + replace (Z.to_nat (pulses - i)) with O by lia. reflexivity.
Qed.

(** More fuel than the loop needs changes nothing. *)
Lemma laserFlicker_for_fuel fuel i pulses w :
  (Z.to_nat (pulses - i) <= fuel)%nat ->
  exec (laserFlicker_for fuel i pulses) w =
  exec (laserFlicker_for (Z.to_nat (pulses - i)) i pulses) w.
Proof.
  intros Hfuel. by rewrite !laserFlicker_for_passes by lia.
Qed.

Lemma laserFlicker_passes pulses w :
  exec (laserFlicker pulses) w =
  Nat.iter (Z.to_nat pulses) (exec laserFlicker_body) w.
Proof.
  unfold laserFlicker. rewrite laserFlicker_for_passes.
  - by rewrite Z.sub_0_r.
  - rewrite Z.sub_0_r. lia.
Qed.

Lemma concat_replicate_snoc {A} (n : nat) (c : list A) :
  concat (replicate n c) ++ c = c ++ concat (replicate n c).
Proof.
  induction n as [|n IH]; simpl.
  - by rewrite app_nil_r.
  - by rewrite <- app_assoc, IH.
Qed.

(** [laserFlicker pulses] writes the cycle [pulses] times over, and nothing
    else. *)
Lemma laserFlicker_history pulses w :
  history (exec (laserFlicker pulses) w) =
  history w ++ concat (replicate (Z.to_nat pulses) spec_flicker_cycle).
Proof.
  rewrite laserFlicker_passes.
  induction (Z.to_nat pulses) as [|n IH].
  - simpl. by rewrite app_nil_r.
  - rewrite Nat.iter_succ. unfold history in *.
    rewrite laserFlicker_body_exec. cbn [trace].
    rewrite rev_app_distr, rev_involutive, IH.
    rewrite <- app_assoc. f_equal.
    apply concat_replicate_snoc.
Qed.

Lemma laserFlicker_pins pulses w :
  0 < pulses -> pins (exec (laserFlicker pulses) w) !! laser = Some LOW.
Proof.
  intros Hpos. rewrite laserFlicker_passes.
  replace (Z.to_nat pulses) with (S (Z.to_nat (pulses - 1))) by lia.
  rewrite Nat.iter_succ, laserFlicker_body_exec. cbn [pins].
  apply lookup_insert_eq.
Qed.

Lemma laserFlicker_millis pulses w :
  0 <= pulses ->
  millis (exec (laserFlicker pulses) w) = millis w + 325 * pulses.
Proof.
  intros Hpos. rewrite laserFlicker_passes.
  rewrite <- (Z2Nat.id pulses) at 2 by lia.
  induction (Z.to_nat pulses) as [|n IH].
  - simpl. lia.
  - rewrite Nat.iter_succ, laserFlicker_body_exec. cbn [millis]. lia.
Qed.


(** C8: [laserFlicker(3)] writes exactly three identical cycles to the
    laser pin, each of them HIGH for 25 ms, LOW for 50 ms, HIGH for 25 ms,
    LOW for 50 ms, HIGH for 25 ms and LOW for 150 ms; that is nine writes of
    HIGH and nine of LOW, and the laser is left LOW. *)
Theorem C8_laserFlicker_three_cycles w :
  let cycle :=
    [ DigitalWrite laser HIGH; Delay 25;
      DigitalWrite laser LOW; Delay 50;
      DigitalWrite laser HIGH; Delay 25;
      DigitalWrite laser LOW; Delay 50;
      DigitalWrite laser HIGH; Delay 25;
      DigitalWrite laser LOW; Delay 150 ] in
  let w' := exec (laserFlicker 3) w in
  history w' = history w ++ cycle ++ cycle ++ cycle /\
  writes laser HIGH (cycle ++ cycle ++ cycle) = 9%nat /\
  writes laser LOW (cycle ++ cycle ++ cycle) = 9%nat /\
  last_write laser (trace w') = Some LOW /\
  pins w' !! laser = Some LOW /\
  millis w' = millis w + 3 * (25 + 50 + 25 + 50 + 25 + 150).
Proof.
  cbv zeta. repeat apply conj.
  - rewrite laserFlicker_history. reflexivity.
  - reflexivity.
  - reflexivity.
  - rewrite laserFlicker_passes. reflexivity.
  - apply laserFlicker_pins. lia.
  - rewrite laserFlicker_millis by lia. lia.
Qed.

(** C9: for [pulses <= 0] the flicker helper does nothing at all: no pin
    write, no delay, and the world (the laser pin with it) is as it was. *)
Theorem C9_laserFlicker_nonpositive pulses w :
  pulses <= 0 ->
  exec (laserFlicker pulses) w = w /\
  history (exec (laserFlicker pulses) w) = history w /\
  pins (exec (laserFlicker pulses) w) !! laser = pins w !! laser /\
  millis (exec (laserFlicker pulses) w) = millis w.
Proof.
  intros Hle.
  assert (Hsame : exec (laserFlicker pulses) w = w).
  { rewrite laserFlicker_passes.
    replace (Z.to_nat pulses) with O by lia. reflexivity. }
  rewrite Hsame. auto.
Qed.

(** *** The stage callbacks *)

Lemma exec_digitalWrite pin level w :
  pins (exec (digitalWrite pin level) w) = <[pin := level]> (pins w) /\
  trace (exec (digitalWrite pin level) w) = DigitalWrite pin level :: trace w.
Proof. split; reflexivity. Qed.

(** The whole effect of [lightShow_PlayTrack2]: the request to the shield
    and the report of its status code. *)
Lemma lightShow_PlayTrack2_exec w :
  exec lightShow_PlayTrack2 w =
  let played := MP3player_playMP3 "track002.mp3" 0 (board w) in
  {| isLightShowPlaying := isLightShowPlaying w;
     isAutoStartEnabled := isAutoStartEnabled w;
     t := t w;
     board := snd played;
     pins := pins w;
     millis := millis w;
     serial_in := serial_in w;
     trace := rev ([SerialPrintln "Playing audio";
                    PlayMP3 "track002.mp3" 0] ++
                   report (fst played) " when trying to play track")
              ++ trace w |}.
Proof.
  unfold lightShow_PlayTrack2, report, exec, bind. cbn.
  destruct (fst (MP3player_playMP3 "track002.mp3" 0 (board w)) =? 0);
    reflexivity.
Qed.

(** The warmup is a sequence that ends in [digitalWrite(laser, HIGH)]. *)
Lemma lightShow_LasersWarmup_last w :
  exists v : World Board,
    pins (exec lightShow_LasersWarmup w) = <[laser := HIGH]> (pins v) /\
    trace (exec lightShow_LasersWarmup w) =
      DigitalWrite laser HIGH :: trace v.
Proof.
  unfold lightShow_LasersWarmup. rewrite !exec_bind.
  match goal with
  | |- context [exec (digitalWrite laser HIGH) ?v] => exists v
  end.
  apply exec_digitalWrite.
Qed.

(** C10: the laser warmup ends with the laser on: whatever the world it
    starts in, its last call is a write of HIGH to the laser pin, so the
    last level written to that pin is HIGH. *)
Theorem C10_LasersWarmup_leaves_laser_HIGH w :
  let w' := exec lightShow_LasersWarmup w in
  head (trace w') = Some (DigitalWrite laser HIGH) /\
  last_write laser (trace w') = Some HIGH /\
  pins w' !! laser = Some HIGH.
Proof.
  cbv zeta. destruct (lightShow_LasersWarmup_last w) as (v & Hpins & Htrace).
  rewrite Htrace, Hpins. repeat apply conj.
  - reflexivity.
  - reflexivity.
  - apply lookup_insert_eq.
Qed.

(** C7: of the stage callbacks only the stop callback changes
    [isLightShowPlaying], and it sets it to [false]; the warmup, LED-on,
    lasers-on, pause, LED-off and play-track-2 callbacks leave it as it
    was. *)
Theorem C7_only_Stop_changes_isLightShowPlaying w :
  isLightShowPlaying (exec lightShow_LasersWarmup w) = isLightShowPlaying w /\
  isLightShowPlaying (exec lightShow_LEDOn w) = isLightShowPlaying w /\
  isLightShowPlaying (exec lightShow_LasersOn w) = isLightShowPlaying w /\
  isLightShowPlaying (exec lightShow_Pause w) = isLightShowPlaying w /\
  isLightShowPlaying (exec lightShow_LEDOff w) = isLightShowPlaying w /\
  isLightShowPlaying (exec lightShow_PlayTrack2 w) = isLightShowPlaying w /\
  isLightShowPlaying (exec lightShow_Stop w) = false.
Proof.
  repeat apply conj.
  - by apply (call_keeps_isLightShowPlaying LasersWarmup).
  - by apply (call_keeps_isLightShowPlaying LEDOn).
  - by apply (call_keeps_isLightShowPlaying LasersOn).
  - by apply (call_keeps_isLightShowPlaying Pause).
  - by apply (call_keeps_isLightShowPlaying LEDOff).
  - by apply (call_keeps_isLightShowPlaying PlayTrack2).
  - reflexivity.
Qed.

(** *** The show-start operation *)

(** The whole effect of [lightShow_Start], whatever the world it is called
    in. *)
Lemma lightShow_Start_exec w :
  exec lightShow_Start w =
  let played := MP3player_playMP3 "track001.mp3" 0 (board w) in
  {| isLightShowPlaying := true;
     isAutoStartEnabled := isAutoStartEnabled w;
     t := {| events :=
               events (t w) ++
               scheduled (millis w) (next_handle (t w)) spec_stage_table;
             next_handle := next_handle (t w) + 9 |};
     board := snd played;
     pins := pins w;
     millis := millis w;
     serial_in := serial_in w;
     trace := rev (start_log (fst played)) ++ trace w |}.
Proof.
  unfold lightShow_Start, start_log, report.
  destruct (fst (MP3player_playMP3 "track001.mp3" 0 (board w)) =? 0) eqn:E;
    cbn; rewrite E; cbn.
  all: f_equal; f_equal; [by rewrite <- !app_assoc | lia].
Qed.

Lemma lightShow_Start_events w :
  events (t (exec lightShow_Start w)) =
  events (t w) ++ scheduled (millis w) (next_handle (t w)) spec_stage_table.
Proof. rewrite lightShow_Start_exec. reflexivity. Qed.

Lemma lightShow_Start_history w :
  history (exec lightShow_Start w) =
  history w ++
  start_log (fst (MP3player_playMP3 "track001.mp3" 0 (board w))).
Proof.
  unfold history. rewrite lightShow_Start_exec. cbn [trace].
  by rewrite rev_app_distr, rev_involutive.
Qed.

Lemma lightShow_Start_keeps_isAutoStartEnabled :
  keeps isAutoStartEnabled lightShow_Start.
Proof. intros w. rewrite lightShow_Start_exec. reflexivity. Qed.

(** C2: a call of [lightShow_Start] in the idle state first asks the shield
    to play [track001.mp3] from offset 0 and then registers exactly nine
    callbacks with the timer, one per stage; two different callbacks (LED
    on and lasers on) share the deadline 45000 ms after the start. *)
Theorem C2_start_plays_track1_then_registers_nine w :
  isLightShowPlaying w = false ->
  let w' := exec lightShow_Start w in
  let code := fst (MP3player_playMP3 "track001.mp3" 0 (board w)) in
  history w' =
    history w ++
    [ SerialPrintln "Starting light show sequence...";
      SerialPrintln "Playing audio";
      PlayMP3 "track001.mp3" 0 ] ++
    report code " when trying to play track" ++
    [ TimerAfter 7000 LasersWarmup;
      TimerAfter 27500 LEDOn;
      TimerAfter 40000 LasersOn;
      TimerAfter 44000 Pause;
      TimerAfter 45000 LEDOn;
      TimerAfter 45000 LasersOn;
      TimerAfter 58000 LEDOff;
      TimerAfter 110000 Stop;
      TimerAfter 140000 PlayTrack2 ] /\
  exists registered,
    events (t w') = events (t w) ++ registered /\
    length registered = 9%nat /\
    map action
      (List.filter (fun e => deadline e =? millis w + 45000) registered) =
      [LEDOn; LasersOn] /\
    LEDOn <> LasersOn.
Proof.
  intros _. cbv zeta. split.
  - rewrite lightShow_Start_history. reflexivity.
  - exists (scheduled (millis w) (next_handle (t w)) spec_stage_table).
    repeat apply conj.
    + apply lightShow_Start_events.
    + reflexivity.
    + cbn.
      repeat match goal with
      | |- context [?a =? ?b] =>
          first [ rewrite (Z.eqb_refl a)
                | destruct (Z.eqb_spec a b) as [Heq|_]; [lia|] ]
      end.
      reflexivity.
    + discriminate.
Qed.

(** C3: the events that [lightShow_Start] registers are the stage table of
    the spec, each deadline being the offset from the clock at the call:
    warmup at 7000, LED on at 27500, lasers on at 40000, pause at 44000,
    LED on and lasers on at 45000, LED off at 58000, stop at 110000 and
    play-track-2 at 140000 ms.  The callbacks do what the table says: LED
    on and off write the LED pin, lasers on writes the laser pin, pause
    and stop put both outputs low, and play-track-2 asks for
    [track002.mp3] from offset 0. *)
Theorem C3_start_registers_the_stage_table w :
  let w' := exec lightShow_Start w in
  let now := millis w in
  let h := next_handle (t w) in
  events (t w') =
    events (t w) ++
    [ {| handle := h; deadline := now + 7000; action := LasersWarmup |};
      {| handle := h + 1; deadline := now + 27500; action := LEDOn |};
      {| handle := h + 2; deadline := now + 40000; action := LasersOn |};
      {| handle := h + 3; deadline := now + 44000; action := Pause |};
      {| handle := h + 4; deadline := now + 45000; action := LEDOn |};
      {| handle := h + 5; deadline := now + 45000; action := LasersOn |};
      {| handle := h + 6; deadline := now + 58000; action := LEDOff |};
      {| handle := h + 7; deadline := now + 110000; action := Stop |};
      {| handle := h + 8; deadline := now + 140000; action := PlayTrack2 |} ]
  /\ events (t w') =
       events (t w) ++ scheduled now h spec_stage_table
  /\ (forall v, last_write laser (trace (exec (call LasersWarmup) v))
                 = Some HIGH)
  /\ (forall v, pins (exec (call LEDOn) v) = <[led := HIGH]> (pins v))
  /\ (forall v, pins (exec (call LasersOn) v) = <[laser := HIGH]> (pins v))
  /\ (forall v, pins (exec (call Pause) v)
                 = <[led := LOW]> (<[laser := LOW]> (pins v)))
  /\ (forall v, pins (exec (call LEDOff) v) = <[led := LOW]> (pins v))
  /\ (forall v, pins (exec (call Stop) v)
                 = <[led := LOW]> (<[laser := LOW]> (pins v)) /\
                isLightShowPlaying (exec (call Stop) v) = false)
  /\ (forall v, history (exec (call PlayTrack2) v) =
                  history v ++
                  [SerialPrintln "Playing audio"; PlayMP3 "track002.mp3" 0] ++
                  report (fst (MP3player_playMP3 "track002.mp3" 0 (board v)))
                    " when trying to play track").
Proof.
  cbv zeta. repeat apply conj.
  - rewrite lightShow_Start_events. cbn.
    repeat first [reflexivity | lia | f_equal].
  - apply lightShow_Start_events.
  - intros v. destruct (lightShow_LasersWarmup_last v) as (u & _ & Htrace).
    change (call LasersWarmup) with (@lightShow_LasersWarmup Board).
    by rewrite Htrace.
  - intros v. reflexivity.
  - intros v. reflexivity.
  - intros v. reflexivity.
  - intros v. reflexivity.
  - intros v. split; reflexivity.
  - intros v. unfold history.
    change (call PlayTrack2) with lightShow_PlayTrack2.
    rewrite lightShow_PlayTrack2_exec. cbn [trace].
    by rewrite rev_app_distr, rev_involutive.
Qed.

(** Whatever status code [playMP3] returns for the first track,
    [lightShow_Start] registers every stage callback and sets the show
    playing; the code only shows in the serial report.  The same holds for
    the second track. *)
Lemma lightShow_Start_on_any_status w code b' :
  MP3player_playMP3 "track001.mp3" 0 (board w) = (code, b') ->
  let w' := exec lightShow_Start w in
  isLightShowPlaying w' = true /\
  events (t w') =
    events (t w) ++ scheduled (millis w) (next_handle (t w)) spec_stage_table /\
  length (events (t w')) = (length (events (t w)) + 9)%nat /\
  history w' =
    history w ++
    [ SerialPrintln "Starting light show sequence...";
      SerialPrintln "Playing audio";
      PlayMP3 "track001.mp3" 0 ] ++
    report code " when trying to play track" ++
    map (fun row => TimerAfter (fst row) (snd row)) spec_stage_table /\
  pins w' = pins w /\
  (forall v,
     t (exec lightShow_PlayTrack2 v) = t v /\
     isLightShowPlaying (exec lightShow_PlayTrack2 v) = isLightShowPlaying v /\
     pins (exec lightShow_PlayTrack2 v) = pins v).
Proof.
  intros Hplay. cbv zeta.
  rewrite lightShow_Start_history, lightShow_Start_exec, Hplay.
  repeat apply conj; try reflexivity.
  - cbn. rewrite length_app. reflexivity.
  - intros v. rewrite lightShow_PlayTrack2_exec. repeat split.
Qed.

(** C5 (amended): [lightShow_Start] sets [isLightShowPlaying] and leaves
    [isAutoStartEnabled] as it was; it is the auto-start path of [loop]
    that clears [isAutoStartEnabled], right after its call of
    [lightShow_Start].  So after a start from the auto-start path the show
    is playing and auto-start is no longer pending, and after a start from
    the [v] command the show is playing and the pending flag is
    unchanged. *)
Theorem C5_start_sets_playing_and_loop_clears_autostart w :
  isLightShowPlaying (exec lightShow_Start w) = true /\
  isAutoStartEnabled (exec lightShow_Start w) = isAutoStartEnabled w /\
  isLightShowPlaying (exec (parse_menu "v"%byte) w) = true /\
  isAutoStartEnabled (exec (parse_menu "v"%byte) w) = isAutoStartEnabled w /\
  (autostart_due w = true ->
   exec loop_autostart w =
     exec (set_isAutoStartEnabled false) (exec lightShow_Start w) /\
   isLightShowPlaying (exec loop_autostart w) = true /\
   isAutoStartEnabled (exec loop_autostart w) = false).
Proof.
  change (exec (parse_menu "v"%byte) w) with (exec lightShow_Start w).
  rewrite !lightShow_Start_exec. repeat apply conj; try reflexivity.
  intros Hdue. unfold loop_autostart, exec. rewrite Hdue.
  change ((when true (bind lightShow_Start
                        (fun _ => set_isAutoStartEnabled false)) w).2)
    with (exec (set_isAutoStartEnabled false) (exec lightShow_Start w)).
  rewrite lightShow_Start_exec. repeat split.
Qed.

(** *** The timer poll and the main loop *)

Lemma fold_calls_keeps {X} (proj : World Board -> X) :
  (forall f, keeps proj (call f)) ->
  forall (l : list ScheduledEvent) w,
    proj (fold_left (fun w' e => exec (call (action e)) w') l w) = proj w.
Proof.
  intros Hcall l. induction l as [|e l IH]; intros w; simpl.
  - reflexivity.
  - rewrite IH. apply Hcall.
Qed.

Lemma Timer_update_keeps_isAutoStartEnabled :
  keeps isAutoStartEnabled Timer_update.
Proof.
  intros w. unfold Timer_update, exec. cbn [snd].
  rewrite (fold_calls_keeps isAutoStartEnabled call_keeps_isAutoStartEnabled).
  reflexivity.
Qed.

Lemma Serial_read_keeps_isAutoStartEnabled :
  keeps (Board:=Board) isAutoStartEnabled Serial_read.
Proof. intros w. unfold Serial_read, exec. by destruct (serial_in w). Qed.

Lemma parse_menu_keeps_isAutoStartEnabled key :
  keeps isAutoStartEnabled (parse_menu key).
Proof.
  apply keeps_when, lightShow_Start_keeps_isAutoStartEnabled.
Qed.

Lemma loop_service_keeps_isAutoStartEnabled :
  keeps isAutoStartEnabled loop_service.
Proof.
  unfold loop_service.
  apply keeps_bind; [apply keeps_when; by intros w | intros _].
  apply keeps_bind; [by intros w | intros available].
  apply keeps_bind; [| intros _; apply Timer_update_keeps_isAutoStartEnabled].
  apply keeps_when, keeps_bind.
  - apply Serial_read_keeps_isAutoStartEnabled.
  - intros key. apply parse_menu_keeps_isAutoStartEnabled.
Qed.

(** A pass of [loop] takes the auto-start path only when auto-start is
    pending at its start, and never leaves it pending after taking it. *)
Lemma loop_autostart_due_pending k w :
  autostart_due (exec loop_service (arrive k w)) = true ->
  isAutoStartEnabled w = true.
Proof.
  unfold autostart_due. rewrite loop_service_keeps_isAutoStartEnabled.
  cbn [arrive isAutoStartEnabled].
  destruct (isAutoStartEnabled w); [done|].
  by rewrite andb_false_r.
Qed.

Lemma loop_pass k w :
  exec loop (arrive k w) =
  let v := exec loop_service (arrive k w) in
  if autostart_due v
  then exec (set_isAutoStartEnabled false) (exec lightShow_Start v)
  else v.
Proof.
  cbv zeta. unfold loop. rewrite exec_bind.
  unfold loop_autostart at 1. unfold exec at 1.
  by destruct (autostart_due _).
Qed.

Lemma loop_isAutoStartEnabled k w :
  isAutoStartEnabled (exec loop (arrive k w)) =
  isAutoStartEnabled w &&
  negb (autostart_due (exec loop_service (arrive k w))).
Proof.
  rewrite loop_pass. cbv zeta.
  destruct (autostart_due _) eqn:Hdue.
  - by rewrite andb_false_r.
  - rewrite loop_service_keeps_isAutoStartEnabled. cbn [arrive isAutoStartEnabled].
    by rewrite andb_true_r.
Qed.

Lemma run_app pre post w : run (pre ++ post) w = run post (run pre w).
Proof.
  revert w. induction pre as [|k pre IH]; intros w; simpl; [done|apply IH].
Qed.

Lemma autostarts_app pre post w :
  autostarts (pre ++ post) w =
  (autostarts pre w + autostarts post (run pre w))%nat.
Proof.
  revert w. induction pre as [|k pre IH]; intros w; simpl; [done|].
  rewrite IH. lia.
Qed.

(** Nothing sets [isAutoStartEnabled] again once it is cleared. *)
Lemma run_disabled ticks w :
  isAutoStartEnabled w = false ->
  isAutoStartEnabled (run ticks w) = false.
Proof.
  revert w. induction ticks as [|k ticks IH]; intros w Hoff; simpl; [done|].
  apply IH. by rewrite loop_isAutoStartEnabled, Hoff.
Qed.

Lemma autostarts_disabled ticks w :
  isAutoStartEnabled w = false -> autostarts ticks w = O.
Proof.
  revert w. induction ticks as [|k ticks IH]; intros w Hoff; simpl; [done|].
  rewrite IH by (by rewrite loop_isAutoStartEnabled, Hoff).
  destruct (autostart_due _) eqn:Hdue; [|done].
  apply loop_autostart_due_pending in Hdue. congruence.
Qed.

Lemma autostarts_pending ticks w :
  isAutoStartEnabled (run ticks w) = true -> autostarts ticks w = O.
Proof.
  revert w. induction ticks as [|k ticks IH]; intros w Hon; simpl in *; [done|].
  rewrite (IH _ Hon).
  destruct (autostart_due _) eqn:Hdue; [|done].
  rewrite run_disabled in Hon; [done|].
  by rewrite loop_isAutoStartEnabled, Hdue, andb_false_r.
Qed.

Lemma autostarts_at_most_once ticks w : (autostarts ticks w <= 1)%nat.
Proof.
  revert w. induction ticks as [|k ticks IH]; intros w; simpl; [lia|].
  destruct (autostart_due _) eqn:Hdue.
  - rewrite autostarts_disabled; [lia|].
    by rewrite loop_isAutoStartEnabled, Hdue, andb_false_r.
  - apply IH.
Qed.

(** [setup], when it returns, leaves the show idle with auto-start
    pending, no event and no input. *)
Lemma setup_state b w0 :
  setup (boot b) = Some w0 ->
  isLightShowPlaying w0 = false /\ isAutoStartEnabled w0 = true /\
  events (t w0) = [] /\ serial_in w0 = [].
Proof.
  unfold setup.
  destruct (negb (fst (sd_begin _))); [done|].
  destruct (negb (fst (sd_chdir _ _))); [done|].
  intros [= <-].
  destruct (negb (fst (MP3player_begin _) =? 0)); [|by repeat split].
  destruct (fst (MP3player_begin _) =? 6); by repeat split.
Qed.

(** A received byte other than [v] is read and dropped. *)
Lemma dispatch_other w :
  head (serial_in w) <> Some "v"%byte ->
  let v :=
    exec (bind Serial_available (fun available =>
            when available (bind Serial_read parse_menu))) w in
  isLightShowPlaying v = isLightShowPlaying w /\
  isAutoStartEnabled v = isAutoStartEnabled w /\
  t v = t w.
Proof.
  intros Hkey. cbv zeta.
  unfold exec, bind, Serial_available, Serial_read, parse_menu.
  destruct (serial_in w) as [|key keys] eqn:Hin; cbn; [done|].
  rewrite Hin. cbn.
  destruct (Byte.eqb key "v") eqn:Hv; [|done].
  apply Byte.byte_dec_bl in Hv. subst key. by destruct Hkey.
Qed.

(** The first pass after [setup] takes the auto-start path, unless the
    command [v] is the first byte it receives. *)
Lemma first_pass_autostarts k w :
  isLightShowPlaying w = false -> isAutoStartEnabled w = true ->
  events (t w) = [] -> serial_in w = [] ->
  head (received k) <> Some "v"%byte ->
  autostart_due (exec loop_service (arrive k w)) = true.
Proof.
  intros Hidle Hauto Hnone Hin Hkey.
  unfold loop_service. rewrite exec_bind.
  set (w1 := exec (when USE_MP3_Polled _) (arrive k w)).
  assert (Hw1 : isLightShowPlaying w1 = false /\
                isAutoStartEnabled w1 = true /\
                events (t w1) = [] /\ serial_in w1 = received k).
  { subst w1. destruct USE_MP3_Polled; cbn; by rewrite Hin. }
  destruct Hw1 as (Hidle1 & Hauto1 & Hnone1 & Hin1).
  change (autostart_due
            (exec Timer_update
               (exec (bind Serial_available (fun available =>
                        when available (bind Serial_read parse_menu))) w1))
          = true).
  destruct (dispatch_other w1) as (Hidle2 & Hauto2 & Ht2);
    [by rewrite Hin1|].
  unfold Timer_update, exec at 1, autostart_due. cbn [snd].
  rewrite Ht2, Hnone1. cbn.
  by rewrite Hidle2, Hauto2, Hidle1, Hauto1.
Qed.

(** C6: the auto-start path of [loop] calls [lightShow_Start] once per run.
    No run takes the path twice.  The pass in which the show is not playing
    and auto-start is pending at the test is the first to take it: that
    pass calls [lightShow_Start] and clears [isAutoStartEnabled], and no
    later pass takes the path again, whatever happens to
    [isLightShowPlaying] (the stop stage included), so that the run has
    exactly one auto-start.  After [setup] this is the very first pass,
    unless that pass receives the command [v] first. *)
Theorem C6_autostart_exactly_once :
  (forall ticks w, (autostarts ticks w <= 1)%nat) /\
  (forall pre k post w,
     autostart_due (exec loop_service (arrive k (run pre w))) = true ->
     autostarts pre w = O /\
     run (pre ++ [k]) w =
       exec (set_isAutoStartEnabled false)
         (exec lightShow_Start
            (exec loop_service (arrive k (run pre w)))) /\
     isAutoStartEnabled (run (pre ++ [k]) w) = false /\
     autostarts post (run (pre ++ [k]) w) = O /\
     autostarts (pre ++ k :: post) w = 1%nat) /\
  (forall b w0 k post,
     setup (boot b) = Some w0 ->
     head (received k) <> Some "v"%byte ->
     autostarts (k :: post) w0 = 1%nat).
Proof.
  repeat apply conj.
  - apply autostarts_at_most_once.
  - intros pre k post w Hdue.
    assert (Hpre : autostarts pre w = O).
    { apply autostarts_pending. by apply loop_autostart_due_pending in Hdue. }
    assert (Hrun : run (pre ++ [k]) w =
                   exec (set_isAutoStartEnabled false)
                     (exec lightShow_Start
                        (exec loop_service (arrive k (run pre w))))).
    { rewrite run_app. simpl. rewrite loop_pass. cbv zeta. by rewrite Hdue. }
    assert (Hoff : isAutoStartEnabled (run (pre ++ [k]) w) = false)
      by (by rewrite Hrun).
    repeat apply conj; try done.
    + by apply autostarts_disabled.
    + rewrite autostarts_app, Hpre. simpl. rewrite Hdue.
      rewrite autostarts_disabled; [done|].
      by rewrite loop_isAutoStartEnabled, Hdue, andb_false_r.
  - intros b w0 k post Hsetup Hkey.
    destruct (setup_state b w0 Hsetup) as (Hidle & Hauto & Hnone & Hin).
    simpl. rewrite first_pass_autostarts by done.
    rewrite autostarts_disabled; [done|].
    rewrite loop_isAutoStartEnabled, first_pass_autostarts by done.
    by rewrite andb_false_r.
Qed.


End Facts.

(** *** The show does not depend on the board

    Status codes only reach the serial line.  Hence two runs of the sketch
    on different boards (a shield that plays and one that fails, say) that
    receive the same input at the same times show the same. *)

Lemma same_show_refl {B} (w : World B) : same_show w w.
Proof. by repeat split. Qed.

Lemma same_show_sym {B1 B2} (w1 : World B1) (w2 : World B2) :
  same_show w1 w2 -> same_show w2 w1.
Proof. intros (?&?&?&?&?&?&?). by repeat split. Qed.

Lemma same_show_trans {B1 B2 B3}
    (w1 : World B1) (w2 : World B2) (w3 : World B3) :
  same_show w1 w2 -> same_show w2 w3 -> same_show w1 w3.
Proof.
  intros (?&?&?&?&?&?&?) (?&?&?&?&?&?&?). repeat split; congruence.
Qed.

Lemma quiet_bind {B A C} (m : Sketch B A) (k : A -> Sketch B C) :
  quiet m -> (forall a, quiet (k a)) -> quiet (bind m k).
Proof.
  intros Hm Hk w. eapply same_show_trans; [apply Hk | apply Hm].
Qed.

Lemma quiet_when {B} b (m : Sketch B unit) : quiet m -> quiet (when b m).
Proof. intros Hm. destruct b; [exact Hm | intros w; apply same_show_refl]. Qed.

(** The report of a status code is serial output only. *)
Lemma quiet_report {B} (b : bool) (code : Z) (what : string) :
  quiet (B:=B)
    (when b
       (bind (Serial_print "Error code: ") (fun _ =>
        bind (Serial_print_num code) (fun _ =>
        Serial_println what)))).
Proof.
  apply quiet_when. repeat (apply quiet_bind; [|intros _]);
    intros w; by repeat split.
Qed.

Section Independence.

Context {B1 B2 : Type} {H1 : Shield B1} {H2 : Shield B2}.

(** Calls that read and write the same fields in the same way. *)
Ltac same_fields :=
  let w1 := fresh "w1" in
  let w2 := fresh "w2" in
  intros w1 w2 (?&?&?&?&?&?&?);
  unfold show_log in *; repeat apply conj; cbn; congruence.

Lemma sim_ret {A1 A2} (a1 : A1) (a2 : A2) :
  sim (ret (Board:=B1) a1) (ret (Board:=B2) a2).
Proof. intros w1 w2 Hs. exact Hs. Qed.

Lemma sim_bind {A1 A2 C1 C2}
    (m1 : Sketch B1 A1) (m2 : Sketch B2 A2)
    (k1 : A1 -> Sketch B1 C1) (k2 : A2 -> Sketch B2 C2) :
  sim m1 m2 -> (forall a1 a2, sim (k1 a1) (k2 a2)) ->
  sim (bind m1 k1) (bind m2 k2).
Proof. intros Hm Hk w1 w2 Hs. apply Hk, Hm, Hs. Qed.

Lemma sim_bind_val {A C1 C2}
    (m1 : Sketch B1 A) (m2 : Sketch B2 A)
    (k1 : A -> Sketch B1 C1) (k2 : A -> Sketch B2 C2) :
  sim_val m1 m2 -> (forall a, sim (k1 a) (k2 a)) ->
  sim (bind m1 k1) (bind m2 k2).
Proof.
  intros Hm Hk w1 w2 Hs. destruct (Hm w1 w2 Hs) as [Hs' Hv].
  unfold exec, bind. fold (eval m1 w1) (eval m2 w2). rewrite Hv.
  apply Hk, Hs'.
Qed.

Lemma sim_when b (m1 : Sketch B1 unit) (m2 : Sketch B2 unit) :
  sim m1 m2 -> sim (when b m1) (when b m2).
Proof. intros Hm. destruct b; [exact Hm | apply sim_ret]. Qed.

Lemma sim_quiet {A1 A2} (m1 : Sketch B1 A1) (m2 : Sketch B2 A2) :
  quiet m1 -> quiet m2 -> sim m1 m2.
Proof.
  intros Hq1 Hq2 w1 w2 Hs.
  eapply same_show_trans; [apply Hq1|].
  eapply same_show_trans; [apply Hs|].
  apply same_show_sym, Hq2.
Qed.

Lemma sim_report b1 b2 code1 code2 what :
  sim (B1:=B1) (B2:=B2)
    (when b1
       (bind (Serial_print "Error code: ") (fun _ =>
        bind (Serial_print_num code1) (fun _ =>
        Serial_println what))))
    (when b2
       (bind (Serial_print "Error code: ") (fun _ =>
        bind (Serial_print_num code2) (fun _ =>
        Serial_println what)))).
Proof. apply sim_quiet; apply quiet_report. Qed.

(** The request to the shield shows as the same call on both boards,
    whatever each of them answers. *)
Lemma sim_playMP3 trackName offset :
  sim (playMP3 (Board:=B1) trackName offset)
      (playMP3 (Board:=B2) trackName offset).
Proof. same_fields. Qed.

Lemma sim_Serial_available :
  sim_val (Serial_available (Board:=B1)) (Serial_available (Board:=B2)).
Proof.
  intros w1 w2 Hs. split; [exact Hs|].
  destruct Hs as (_&_&_&_&_&Hin&_). unfold eval, Serial_available.
  cbn. by rewrite Hin.
Qed.

Lemma sim_Serial_read :
  sim_val (Serial_read (Board:=B1)) (Serial_read (Board:=B2)).
Proof.
  intros w1 w2 Hs.
  pose proof Hs as (?&?&?&?&?&Hin&?).
  unfold eval, exec, Serial_read. rewrite Hin.
  destruct (serial_in w2); [by split|].
  split; [|done]. unfold show_log in *. repeat split; cbn; congruence.
Qed.

(** Sequences are taken apart; the calls left are compared field by
    field. *)
Ltac sim_code :=
  repeat first
    [ apply sim_bind; [| intros ? ?]
    | apply sim_report
    | apply sim_playMP3
    | apply sim_ret
    | same_fields ].

Lemma sim_laserFlicker_body :
  sim (laserFlicker_body (Board:=B1)) (laserFlicker_body (Board:=B2)).
Proof. unfold laserFlicker_body. sim_code. Qed.

Lemma sim_laserFlicker_for fuel i pulses :
  sim (laserFlicker_for (Board:=B1) fuel i pulses)
      (laserFlicker_for (Board:=B2) fuel i pulses).
Proof.
  revert i. induction fuel as [|fuel IH]; intros i; simpl.
  - apply sim_ret.
  - destruct (i <? pulses); [|apply sim_ret].
    apply sim_bind; [apply sim_laserFlicker_body | intros _ _; apply IH].
Qed.

Lemma sim_laserFlicker pulses :
  sim (laserFlicker (Board:=B1) pulses) (laserFlicker (Board:=B2) pulses).
Proof. apply sim_laserFlicker_for. Qed.

Lemma sim_call f : sim (call (Board:=B1) f) (call (Board:=B2) f).
Proof.
  destruct f; unfold call.
  - unfold lightShow_LasersWarmup.
    repeat match goal with
      | |- sim (laserFlicker _) (laserFlicker _) => apply sim_laserFlicker
      | |- sim (bind _ _) (bind _ _) =>
          apply sim_bind; [| intros ? ?; cbv beta]
      | |- _ => same_fields
      end.
  - unfold lightShow_LasersOn. sim_code.
  - unfold lightShow_LEDOn. sim_code.
  - unfold lightShow_LEDOff. sim_code.
  - unfold lightShow_Pause. sim_code.
  - unfold lightShow_Stop. sim_code.
  - unfold lightShow_PlayTrack2. cbv zeta. sim_code.
Qed.

Lemma sim_lightShow_Start :
  sim (lightShow_Start (Board:=B1)) (lightShow_Start (Board:=B2)).
Proof. unfold lightShow_Start. cbv zeta. sim_code. Qed.

Lemma sim_fire (l : list ScheduledEvent) :
  forall (w1 : World B1) (w2 : World B2),
    same_show w1 w2 ->
    same_show
      (fold_left (fun w' e => exec (call (action e)) w') l w1)
      (fold_left (fun w' e => exec (call (action e)) w') l w2).
Proof.
  induction l as [|e l IH]; intros w1 w2 Hs; simpl; [exact Hs|].
  apply IH, sim_call, Hs.
Qed.

Lemma sim_Timer_update :
  sim (Timer_update (Board:=B1)) (Timer_update (Board:=B2)).
Proof.
  intros w1 w2 Hs. unfold Timer_update, exec. cbn [snd].
  pose proof Hs as (?&?&Ht&?&Hms&?&?). rewrite Ht, Hms.
  apply sim_fire. unfold show_log in *. repeat split; cbn; congruence.
Qed.

Lemma sim_parse_menu key :
  sim (parse_menu (Board:=B1) key) (parse_menu (Board:=B2) key).
Proof. apply sim_when, sim_lightShow_Start. Qed.

Lemma sim_loop_service :
  sim (loop_service (Board:=B1)) (loop_service (Board:=B2)).
Proof.
  unfold loop_service.
  apply sim_bind; [|intros _ _].
  { apply sim_quiet; apply quiet_when; intros w; by repeat split. }
  apply sim_bind_val; [apply sim_Serial_available | intros available].
  apply sim_bind; [|intros _ _; apply sim_Timer_update].
  apply sim_when, sim_bind_val; [apply sim_Serial_read | intros key].
  apply sim_parse_menu.
Qed.

Lemma sim_loop_autostart :
  sim (loop_autostart (Board:=B1)) (loop_autostart (Board:=B2)).
Proof.
  intros w1 w2 Hs. unfold loop_autostart, exec.
  assert (Hdue : autostart_due w1 = autostart_due w2).
  { destruct Hs as (Hp & Ha & _). unfold autostart_due. by rewrite Hp, Ha. }
  rewrite Hdue. destruct (autostart_due w2); [|exact Hs].
  apply (sim_bind lightShow_Start lightShow_Start
           (fun _ => set_isAutoStartEnabled false)
           (fun _ => set_isAutoStartEnabled false));
    [apply sim_lightShow_Start | intros _ _; same_fields | exact Hs].
Qed.

Lemma sim_loop : sim (loop (Board:=B1)) (loop (Board:=B2)).
Proof.
  apply sim_bind; [apply sim_loop_service | intros _ _; apply sim_loop_autostart].
Qed.

Lemma same_show_arrive k (w1 : World B1) (w2 : World B2) :
  same_show w1 w2 -> same_show (arrive k w1) (arrive k w2).
Proof.
  intros (?&?&?&?&?&?&?). unfold show_log in *.
  repeat split; cbn; congruence.
Qed.

(** Runs on two boards that get the same input show the same, from
    worlds that show the same. *)
Lemma same_show_run ticks :
  forall (w1 : World B1) (w2 : World B2),
    same_show w1 w2 -> same_show (run ticks w1) (run ticks w2).
Proof.
  induction ticks as [|k ticks IH]; intros w1 w2 Hs; simpl; [exact Hs|].
  apply IH, sim_loop, same_show_arrive, Hs.
Qed.

Lemma same_show_boot (b1 : B1) (b2 : B2) : same_show (boot b1) (boot b2).
Proof. by repeat split. Qed.

End Independence.

(** C4: whatever status code [playMP3] returns for the first track, a failure
    code included, [lightShow_Start] registers every stage callback and sets
    the show playing; the code only shows in the serial report, and the
    status code of the second track changes neither the pending events nor
    the flag nor the pins.  No scheduled action is dropped or skipped
    afterwards: on any other board (one that plays the track, say) the start
    and every run that follows with the same input show the same flags,
    pending events, pin levels, delays and requests. *)
Theorem C4_playback_failure_does_not_stop_the_show
    {B1 B2} {H1 : Shield B1} {H2 : Shield B2}
    (w : World B1) (code : Z) (b' : B1) (w2 : World B2) :
  MP3player_playMP3 "track001.mp3" 0 (board w) = (code, b') ->
  same_show w w2 ->
  let w' := exec lightShow_Start w in
  isLightShowPlaying w' = true /\
  events (t w') =
    events (t w) ++ scheduled (millis w) (next_handle (t w)) spec_stage_table /\
  length (events (t w')) = (length (events (t w)) + 9)%nat /\
  history w' =
    history w ++
    [ SerialPrintln "Starting light show sequence...";
      SerialPrintln "Playing audio";
      PlayMP3 "track001.mp3" 0 ] ++
    report code " when trying to play track" ++
    map (fun row => TimerAfter (fst row) (snd row)) spec_stage_table /\
  pins w' = pins w /\
  (forall v : World B1,
     t (exec lightShow_PlayTrack2 v) = t v /\
     isLightShowPlaying (exec lightShow_PlayTrack2 v) = isLightShowPlaying v /\
     pins (exec lightShow_PlayTrack2 v) = pins v) /\
  same_show w' (exec lightShow_Start w2) /\
  (forall ticks,
     same_show (run ticks w') (run ticks (exec lightShow_Start w2))) /\
  (forall ticks, same_show (run ticks w) (run ticks w2)).
Proof.
  intros Hplay Hs. cbv zeta.
  destruct (lightShow_Start_on_any_status w code b' Hplay)
    as (Hp & Hev & Hlen & Hhist & Hpins & Htrack2).
  split; [exact Hp|]. split; [exact Hev|]. split; [exact Hlen|].
  split; [exact Hhist|]. split; [exact Hpins|]. split; [exact Htrack2|].
  split; [|split].
  - apply sim_lightShow_Start, Hs.
  - intros ticks. apply same_show_run, sim_lightShow_Start, Hs.
  - intros ticks. apply same_show_run, Hs.
Qed.

(** ** Further properties of the sketch *)

Section Coverage.

Context `{Shield Board}.
Implicit Types (w : World Board) (f : Callback).

(** *** [setup] *)

(** X1: [setup] returns exactly when the SD card initialises and the change
    to the root directory succeeds; the status code of [MP3player.begin()]
    plays no part, a failing shield does not halt the sketch. *)
Theorem setup_returns_iff_card_ready w :
  bool_decide (is_Some (setup w)) =
  fst (sd_begin (board w)) &&
  fst (sd_chdir "/" (snd (sd_begin (board w)))).
Proof.
  unfold setup.
  change (board (exec _ w)) with (board w).
  destruct (fst (sd_begin (board w))); cbn [negb andb]; [|done].
  destruct (fst (sd_chdir "/" _)); cbn [negb]; [|done].
  apply bool_decide_eq_true. eauto.
Qed.

(** X2: when [setup] returns, it has made the twelve pins 2 to 13 outputs,
    opened the serial line at 115200 baud, printed the free memory and
    reported a non-zero status code of [MP3player.begin()] (with two more
    lines for code 6).  It leaves the show idle and touches neither
    [isAutoStartEnabled] nor the timer, the pin levels, the clock or the
    pending input; it asks for no track and registers no event. *)
Theorem setup_effects w w0 :
  setup w = Some w0 ->
  let card := snd (sd_chdir "/" (snd (sd_begin (board w)))) in
  let code := fst (MP3player_begin card) in
  isLightShowPlaying w0 = false /\
  isAutoStartEnabled w0 = isAutoStartEnabled w /\
  t w0 = t w /\ pins w0 = pins w /\ millis w0 = millis w /\
  serial_in w0 = serial_in w /\
  board w0 = snd (MP3player_begin card) /\
  history w0 =
    history w ++
    map (fun pin => PinMode pin OUTPUT) setup_pins ++
    [ SerialBegin 115200;
      SerialPrint "Free RAM = ";
      SerialPrintNum (FreeRam (board w));
      SerialPrintln
        " Should be a base line of 1040, on ATmega328 when using INTx" ] ++
    begin_report code /\
  requests (history w0) = requests (history w) /\
  registrations (history w0) = registrations (history w).
Proof.
  unfold setup.
  change (board (exec _ w)) with (board w).
  destruct (fst (sd_begin (board w))); cbn [negb]; [|done].
  destruct (fst (sd_chdir "/" _)); cbn [negb]; [|done].
  intros [= <-]. cbv zeta. unfold begin_report, history, requests, registrations.
  destruct (fst (MP3player_begin _) =? 0); cbn [negb].
  - cbn. rewrite <- !app_assoc. cbn.
    rewrite !omap_app. cbn. by rewrite !app_nil_r.
  - destruct (fst (MP3player_begin _) =? 6).
    + cbn. rewrite <- !app_assoc. cbn.
      rewrite !omap_app. cbn. by rewrite !app_nil_r.
    + cbn. rewrite <- !app_assoc. cbn.
      rewrite !omap_app. cbn. by rewrite !app_nil_r.
Qed.

(** *** Frame conditions, again *)

Ltac framed :=
  repeat first
    [ apply keeps_bind; [| intros ?]
    | apply keeps_when
    | apply keeps_laserFlicker
    | apply keeps_ret
    | (intros ?; reflexivity) ].

Lemma fire_keeps {X} (proj : World Board -> X) :
  (forall l w, proj (with_events l w) = proj w) ->
  (forall f, keeps proj (call f)) -> keeps proj Timer_update.
Proof.
  intros Hpending Hcall w. unfold Timer_update, exec. cbn [snd].
  by rewrite (fold_calls_keeps proj Hcall), Hpending.
Qed.

Lemma call_keeps_serial_in f : keeps serial_in (call f).
Proof. destruct f; unfold call; framed. Qed.

Lemma lightShow_Start_keeps_serial_in : keeps serial_in lightShow_Start.
Proof. intros w. by rewrite lightShow_Start_exec. Qed.

Lemma loop_autostart_keeps_serial_in : keeps serial_in loop_autostart.
Proof.
  intros w. unfold loop_autostart, exec.
  destruct (autostart_due w); [|done].
  change (serial_in (exec (set_isAutoStartEnabled false)
                       (exec lightShow_Start w)) = serial_in w).
  by rewrite lightShow_Start_exec.
Qed.

(** The part of [loop] that reads the serial line: one byte at most, handed
    to [parse_menu]. *)
Lemma loop_service_dispatch w :
  exec loop_service w =
  let w1 := exec (when USE_MP3_Polled
                    (fun v => (tt, with_board (MP3player_available (board v)) v)))
              w in
  exec Timer_update
    (match serial_in w1 with
     | [] => w1
     | key :: _ => exec (parse_menu key) (exec Serial_read w1)
     end).
Proof.
  cbv zeta. unfold loop_service. rewrite exec_bind.
  set (w1 := exec (when USE_MP3_Polled _) w).
  unfold exec, bind, Serial_available, Serial_read. cbn [fst snd].
  destruct (serial_in w1) eqn:Hin; cbn [when ret snd]; [done|].
  by rewrite Hin.
Qed.

Lemma polled_refill_serial_in w :
  serial_in
    (exec (when USE_MP3_Polled
             (fun v => (tt, with_board (MP3player_available (board v)) v))) w)
  = serial_in w.
Proof. by destruct USE_MP3_Polled. Qed.

(** *** [parse_menu] and the serial line *)

(** X3: [v] is the only command: for every other byte [parse_menu] does
    nothing at all (the digits and the letters [s] and [f] of the file's
    header comment included), and for [v] it is [lightShow_Start]. *)
Theorem parse_menu_ignores_other_bytes key w :
  key <> "v"%byte ->
  exec (parse_menu key) w = w /\
  exec (parse_menu "v"%byte) w = exec lightShow_Start w.
Proof.
  intros Hkey. split; [|reflexivity].
  unfold parse_menu. destruct (Byte.eqb key "v") eqn:Hv; [|reflexivity].
  apply Byte.byte_dec_bl in Hv. contradiction.
Qed.

(** X4: a pass of [loop] reads exactly one byte when input is pending, the
    oldest one, and leaves the others queued in their order: the pending
    input after the pass is the tail of the pending input before it. *)
Theorem loop_reads_one_byte k w :
  serial_in (exec loop w) = tail (serial_in w) /\
  serial_in (exec loop (arrive k w)) = tail (serial_in w ++ received k).
Proof.
  assert (Hloop : forall v : World Board,
            serial_in (exec loop v) = tail (serial_in v)).
  { intros v. unfold loop. rewrite exec_bind, loop_autostart_keeps_serial_in.
    rewrite loop_service_dispatch. cbv zeta.
    rewrite (fire_keeps serial_in (fun _ _ => eq_refl) call_keeps_serial_in).
    rewrite <- (polled_refill_serial_in v).
    set (w1 := exec (when USE_MP3_Polled _) v).
    destruct (serial_in w1) as [|key rest] eqn:E; [by rewrite E|].
    unfold parse_menu. destruct (Byte.eqb key "v"); cbn [when].
    + rewrite lightShow_Start_keeps_serial_in.
      unfold exec, Serial_read. by rewrite E.
    + unfold exec, Serial_read, ret. by rewrite E. }
  split; [apply Hloop|]. by rewrite Hloop.
Qed.

(** *** The flicker helper and the warmup, in full *)

Lemma history_step (e : Effect) w : rev (e :: trace w) = history w ++ [e].
Proof. reflexivity. Qed.

Lemma history_digitalWrite pin level w :
  history (exec (digitalWrite pin level) w) =
  history w ++ [DigitalWrite pin level].
Proof. reflexivity. Qed.

Lemma history_delay ms w :
  history (exec (delay ms) w) = history w ++ [Delay ms].
Proof. reflexivity. Qed.

Lemma history_Serial_println msg w :
  history (exec (Serial_println msg) w) = history w ++ [SerialPrintln msg].
Proof. reflexivity. Qed.

Lemma millis_digitalWrite pin level w :
  millis (exec (digitalWrite pin level) w) = millis w.
Proof. reflexivity. Qed.

Lemma millis_delay ms w : millis (exec (delay ms) w) = millis w + ms.
Proof. reflexivity. Qed.

Lemma millis_Serial_println msg w :
  millis (exec (Serial_println msg) w) = millis w.
Proof. reflexivity. Qed.

(** The pins other than the laser's. *)
Lemma laserFlicker_other_pins pulses :
  keeps (Board:=Board) (fun w => delete laser (pins w)) (laserFlicker pulses).
Proof.
  apply keeps_laserFlicker. intros w. rewrite laserFlicker_body_exec.
  cbn [pins]. by rewrite !delete_insert_eq.
Qed.

(** X5: for every [pulses], [laserFlicker] writes the cycle HIGH 25 ms,
    LOW 50 ms, HIGH 25 ms, LOW 50 ms, HIGH 25 ms, LOW 150 ms as many times
    as [pulses] says (none when it is negative) and nothing else; it blocks
    for 325 ms per cycle, leaves the laser LOW when it made a cycle and
    the pin as it was when it made none, and touches no other pin, neither
    flag, nor the timer, the input or the board. *)
Theorem laserFlicker_any_pulses pulses w :
  let w' := exec (laserFlicker pulses) w in
  history w' = history w ++ flickers (Z.to_nat pulses) /\
  millis w' = millis w + 325 * Z.max 0 pulses /\
  pins w' !! laser = (if 0 <? pulses then Some LOW else pins w !! laser) /\
  delete laser (pins w') = delete laser (pins w) /\
  isLightShowPlaying w' = isLightShowPlaying w /\
  isAutoStartEnabled w' = isAutoStartEnabled w /\
  t w' = t w /\ serial_in w' = serial_in w /\ board w' = board w.
Proof.
  cbv zeta. repeat apply conj.
  - apply laserFlicker_history.
  - destruct (Z.le_gt_cases 0 pulses) as [Hpos|Hneg].
    + rewrite laserFlicker_millis by done. lia.
    + rewrite laserFlicker_passes.
      replace (Z.to_nat pulses) with O by lia. simpl. lia.
  - destruct (Z.ltb_spec 0 pulses) as [Hpos|Hneg].
    + by apply laserFlicker_pins.
    + rewrite laserFlicker_passes.
      by replace (Z.to_nat pulses) with O by lia.
  - apply (laserFlicker_other_pins pulses w).
  - apply (keeps_laserFlicker isLightShowPlaying); by intros v.
  - apply (keeps_laserFlicker isAutoStartEnabled); by intros v.
  - apply (keeps_laserFlicker t); by intros v.
  - apply (keeps_laserFlicker serial_in); by intros v.
  - apply (keeps_laserFlicker board); by intros v.
Qed.

Lemma lightShow_LasersWarmup_millis w :
  millis (exec lightShow_LasersWarmup w) = millis w + 11225.
Proof.
  unfold lightShow_LasersWarmup. rewrite !exec_bind.
  repeat match goal with
  | |- context [millis (exec (delay ?d) ?v)] => rewrite (millis_delay d v)
  | |- context [millis (exec (digitalWrite ?p ?l) ?v)] =>
      rewrite (millis_digitalWrite p l v)
  | |- context [millis (exec (laserFlicker ?n) ?v)] =>
      rewrite (laserFlicker_millis n v) by lia
  | |- context [millis (exec (Serial_println ?m) ?v)] =>
      rewrite (millis_Serial_println m v)
  end.
  lia.
Qed.

Lemma lightShow_LasersWarmup_other_pins :
  keeps (Board:=Board) (fun w => delete laser (pins w)) lightShow_LasersWarmup.
Proof.
  unfold lightShow_LasersWarmup.
  repeat match goal with
  | |- keeps _ (laserFlicker _) => apply laserFlicker_other_pins
  | |- keeps _ (bind _ _) => apply keeps_bind; [| intros ?; cbv beta]
  | |- keeps _ (digitalWrite laser _) =>
      intros v; cbn [exec digitalWrite snd pins]; apply delete_insert_eq
  | |- _ => intros v; reflexivity
  end.
Qed.

(** X6: the laser warmup, in full.  It makes 3, 2, 5, 2 and 2 flicker
    cycles separated by pauses of 1000, 500, 200 and 500 ms, waits 50 ms,
    holds the laser on for 1000 ms, makes 3 cycles, waits 500 ms, makes 3
    cycles, writes HIGH, makes 3 more cycles and writes HIGH.  It blocks
    the loop for 11225 ms, and it changes no pin but the laser's, neither
    flag, nor the timer or the pending input. *)
Theorem lightShow_LasersWarmup_in_full w :
  let w' := exec lightShow_LasersWarmup w in
  history w' =
    history w ++
    [SerialPrintln "Warming up lasers"] ++
    flickers 3 ++ [Delay 1000] ++
    flickers 2 ++ [Delay 500] ++
    flickers 5 ++ [Delay 200] ++
    flickers 2 ++ [Delay 500] ++
    flickers 2 ++ [Delay 50; DigitalWrite laser HIGH; Delay 1000] ++
    flickers 3 ++ [Delay 500] ++
    flickers 3 ++ [DigitalWrite laser HIGH] ++
    flickers 3 ++ [DigitalWrite laser HIGH] /\
  millis w' = millis w + 11225 /\
  delete laser (pins w') = delete laser (pins w) /\
  isLightShowPlaying w' = isLightShowPlaying w /\
  isAutoStartEnabled w' = isAutoStartEnabled w /\
  t w' = t w /\ serial_in w' = serial_in w.
Proof.
  cbv zeta. repeat apply conj.
  - unfold lightShow_LasersWarmup. rewrite !exec_bind.
    repeat match goal with
    | |- context [history (exec (delay ?d) ?v)] =>
        rewrite (history_delay d v)
    | |- context [history (exec (digitalWrite ?p ?l) ?v)] =>
        rewrite (history_digitalWrite p l v)
    | |- context [history (exec (laserFlicker ?n) ?v)] =>
        rewrite (laserFlicker_history n v)
    | |- context [history (exec (Serial_println ?m) ?v)] =>
        rewrite (history_Serial_println m v)
    end.
    rewrite <- !app_assoc. reflexivity.
  - apply lightShow_LasersWarmup_millis.
  - exact (lightShow_LasersWarmup_other_pins w).
  - exact (call_keeps_isLightShowPlaying (Board:=Board) LasersWarmup
             ltac:(discriminate) w).
  - exact (call_keeps_isAutoStartEnabled (Board:=Board) LasersWarmup w).
  - unfold lightShow_LasersWarmup. framed.
  - exact (call_keeps_serial_in LasersWarmup w).
Qed.

(** *** What the stage callbacks leave alone *)

Lemma registrations_history w :
  registrations (history w) = rev (registrations (trace w)).
Proof.
  unfold history, registrations.
  induction (trace w) as [|e l IH]; [done|].
  cbn [rev]. rewrite omap_app, IH.
  destruct e; cbn; by rewrite ?app_nil_r.
Qed.

Lemma other_pins_write (pin : Z) (level : Level) (m : gmap Z Level) :
  pin = laser \/ pin = led ->
  delete led (delete laser (<[pin := level]> m)) = delete led (delete laser m).
Proof.
  intros [-> | ->].
  - by rewrite delete_insert_eq.
  - rewrite delete_insert_ne by done. by rewrite delete_insert_eq.
Qed.

Lemma call_keeps_t f : keeps t (call f).
Proof. destruct f; unfold call; framed. Qed.

Lemma call_keeps_registrations f :
  keeps (Board:=Board) (fun w => registrations (trace w)) (call f).
Proof. destruct f; unfold call; framed. Qed.

Lemma call_other_pins f :
  keeps (Board:=Board) (fun w => delete led (delete laser (pins w))) (call f).
Proof.
  destruct f; unfold call;
    [ intros w; exact (f_equal (delete led)
                         (lightShow_LasersWarmup_other_pins w)) | .. ].
  all: cbv [lightShow_LasersOn lightShow_LEDOn lightShow_LEDOff
            lightShow_Pause lightShow_Stop lightShow_PlayTrack2].
  all: cbv zeta;
    repeat match goal with
    | |- keeps _ (bind _ _) => apply keeps_bind; [| intros ?; cbv beta]
    | |- keeps _ (when _ _) => apply keeps_when
    | |- keeps _ (digitalWrite _ _) =>
        intros v; cbn [exec digitalWrite snd pins];
        apply other_pins_write; auto
    | |- _ => intros v; reflexivity
    end.
Qed.

Lemma call_millis f w : millis w <= millis (exec (call f) w).
Proof.
  destruct f; unfold call;
    [ rewrite lightShow_LasersWarmup_millis; lia | .. ].
  all: match goal with
       | |- _ <= millis (exec ?m _) =>
           assert (Hk : keeps millis m)
             by (cbv [lightShow_LasersOn lightShow_LEDOn lightShow_LEDOff
                      lightShow_Pause lightShow_Stop lightShow_PlayTrack2];
                 framed);
           rewrite Hk
       end; lia.
Qed.

(** X7: what no stage callback does, whichever it is: it registers no event
    and leaves the pending ones as they are, reads no input, does not touch
    [isAutoStartEnabled], does not turn the clock back, and drives no pin
    other than the laser's (5) and the LED's (9). *)
Theorem callbacks_leave_alone f w :
  let w' := exec (call f) w in
  t w' = t w /\
  registrations (history w') = registrations (history w) /\
  serial_in w' = serial_in w /\
  isAutoStartEnabled w' = isAutoStartEnabled w /\
  millis w <= millis w' /\
  delete led (delete laser (pins w')) = delete led (delete laser (pins w)).
Proof.
  cbv zeta. repeat apply conj.
  - exact (call_keeps_t f w).
  - rewrite !registrations_history. f_equal.
    exact (call_keeps_registrations f w).
  - exact (call_keeps_serial_in f w).
  - exact (call_keeps_isAutoStartEnabled (Board:=Board) f w).
  - apply call_millis.
  - exact (call_other_pins f w).
Qed.

(** *** Starting again and again *)

Lemma starts_history w : starts (history w) = starts (trace w).
Proof.
  unfold starts, history. by rewrite List.filter_rev, length_rev.
Qed.

Lemma lightShow_Start_counts w :
  starts (trace (exec lightShow_Start w)) = S (starts (trace w)) /\
  length (events (t (exec lightShow_Start w))) =
    (length (events (t w)) + 9)%nat /\
  registrations (trace (exec lightShow_Start w)) =
    rev spec_stage_table ++ registrations (trace w).
Proof.
  rewrite lightShow_Start_exec. cbv zeta. cbn [trace t events].
  unfold start_log, report, starts, registrations.
  destruct (fst (MP3player_playMP3 "track001.mp3" 0 (board w)) =? 0).
  - repeat apply conj; [done | by rewrite length_app | done].
  - repeat apply conj; [done | by rewrite length_app | done].
Qed.


(** *** Runs: starts, clock and the auto-start flag *)

Lemma call_keeps_starts f :
  keeps (Board:=Board) (fun w => starts (trace w)) (call f).
Proof. destruct f; unfold call; framed. Qed.

Lemma polled_refill_trace w :
  trace
    (exec (when USE_MP3_Polled
             (fun v => (tt, with_board (MP3player_available (board v)) v))) w)
  = trace w.
Proof. by destruct USE_MP3_Polled. Qed.

Lemma loop_service_starts w :
  starts (trace (exec loop_service w)) =
  (starts (trace w) + (if command_due w then 1 else 0))%nat.
Proof.
  rewrite loop_service_dispatch. cbv zeta.
  rewrite (fire_keeps (fun v => starts (trace v)) (fun _ _ => eq_refl)
             call_keeps_starts).
  unfold command_due.
  rewrite <- (polled_refill_serial_in w), <- (polled_refill_trace w).
  set (w1 := exec (when USE_MP3_Polled _) w).
  destruct (serial_in w1) as [|key rest] eqn:E; [lia|].
  assert (Hread : trace (exec Serial_read w1) = trace w1)
    by (unfold exec, Serial_read; by rewrite E).
  unfold parse_menu. destruct (Byte.eqb key "v"); cbn [when].
  - destruct (lightShow_Start_counts (exec Serial_read w1)) as (-> & _).
    rewrite Hread. lia.
  - change (exec (ret tt) (exec Serial_read w1)) with (exec Serial_read w1).
    rewrite Hread. lia.
Qed.

Lemma loop_starts k w :
  starts (trace (exec loop (arrive k w))) =
  (starts (trace w)
   + (if command_due (arrive k w) then 1 else 0)
   + (if autostart_due (exec loop_service (arrive k w)) then 1 else 0))%nat.
Proof.
  rewrite (loop_pass (Board:=Board) k w). cbv zeta.
  pose proof (loop_service_starts (arrive k w)) as Hservice.
  cbn [arrive trace] in Hservice.
  set (v := exec loop_service (arrive k w)) in *.
  destruct (autostart_due v); [|lia].
  destruct (lightShow_Start_counts v) as (Hstart & _).
  assert (Hset : forall u : World Board,
            trace (exec (set_isAutoStartEnabled false) u) = trace u)
    by reflexivity.
  rewrite (Hset (exec lightShow_Start v)), Hstart. lia.
Qed.

(** X9: the show is started once for every [v] command read and once for
    every pass that takes the auto-start path, and at no other time: over a
    run, the number of requests for the first track grows by the number of
    commands plus the number of auto-starts.  No stage callback and no other
    byte starts it. *)
Theorem starts_are_commands_and_autostarts ticks w :
  starts (history (run ticks w)) =
  (starts (history w) + commands ticks w + autostarts ticks w)%nat.
Proof.
  rewrite !starts_history. revert w.
  induction ticks as [|k ticks IH]; intros w; simpl; [lia|].
  rewrite IH, loop_starts. lia.
Qed.




(** X11: auto-start is pending at the end of a run exactly when it was
    pending at its start and no pass took the auto-start path: nothing but
    that path clears the flag, and nothing sets it. *)
Theorem run_isAutoStartEnabled ticks w :
  isAutoStartEnabled (run ticks w) =
  isAutoStartEnabled w && (autostarts ticks w =? 0)%nat.
Proof.
  revert w. induction ticks as [|k ticks IH]; intros w; simpl.
  - by rewrite andb_true_r.
  - rewrite IH, (loop_isAutoStartEnabled (Board:=Board) k w).
    destruct (autostart_due _); cbn.
    + by rewrite !andb_false_r.
    + by rewrite andb_true_r.
Qed.

(** *** A playing show has its stop stage pending *)










End Coverage.






(** ** Closed instances on the test bench *)

(** The show on the bench, pass by pass: the start at 0 ms asks for the first
    track; the pass at 7000 ms runs the warmup, which blocks for 11225 ms and
    leaves the laser on; the pass at 45000 ms fires the five stages that are
    due, the last two being LED on and lasers on; the pass at 110000 ms
    fires LED off and stop; the pass at 140000 ms asks for the second
    track. *)
Example show_timeline :
  let at_0 := run [Bench.idle 0] (boot Bench.full) in
  let at_7000 := run [Bench.idle 7000] at_0 in
  let at_45000 := run [Bench.idle 26775] at_7000 in
  let at_110000 := run [Bench.idle 65000] at_45000 in
  let at_140000 := run [Bench.idle 30000] at_110000 in
  (requests (history at_0) = [("track001.mp3", 0)] /\
   length (events (t at_0)) = 9%nat) /\
  (millis at_7000 = 18225 /\ pins at_7000 !! laser = Some HIGH /\
   length (events (t at_7000)) = 8%nat) /\
  (millis at_45000 = 45000 /\
   pins at_45000 !! laser = Some HIGH /\ pins at_45000 !! led = Some HIGH /\
   map action (events (t at_45000)) = [LEDOff; Stop; PlayTrack2]) /\
  (isLightShowPlaying at_45000 = true /\
   isLightShowPlaying at_110000 = false /\
   pins at_110000 !! laser = Some LOW /\ pins at_110000 !! led = Some LOW /\
   map action (events (t at_110000)) = [PlayTrack2]) /\
  (requests (history at_140000) = [("track001.mp3", 0); ("track002.mp3", 0)] /\
   events (t at_140000) = []).
Proof. vm_compute. repeat split. Qed.

(** C1: the show-start operation has no guard of its own.  On the bench, the
    first pass of [loop] auto-starts the show; when the command [v] arrives
    1000 ms later the show is playing, and [lightShow_Start] runs all the
    same: it asks for the track again and calls [t.after] nine more times,
    which registers a second set of nine stage events 1000 ms behind the
    first, so that eighteen events are pending instead of nine. *)
Theorem C1_start_while_playing_registers_a_second_sequence :
  let w1 := run [Bench.idle 0] (boot Bench.full) in
  let w2 := run [Bench.idle 0; Bench.press_v 1000] (boot Bench.full) in
  isLightShowPlaying w1 = true /\
  length (events (t w1)) = 9%nat /\
  w2 = exec lightShow_Start (arrive (Bench.idle 1000) w1) /\
  length (events (t w2)) = 18%nat /\
  map (fun e => (deadline e, action e)) (events (t w2)) =
    [ (7000, LasersWarmup); (27500, LEDOn); (40000, LasersOn);
      (44000, Pause); (45000, LEDOn); (45000, LasersOn);
      (58000, LEDOff); (110000, Stop); (140000, PlayTrack2);
      (8000, LasersWarmup); (28500, LEDOn); (41000, LasersOn);
      (45000, Pause); (46000, LEDOn); (46000, LasersOn);
      (59000, LEDOff); (111000, Stop); (141000, PlayTrack2) ] /\
  requests (history w2) = [("track001.mp3", 0); ("track001.mp3", 0)] /\
  length (registrations (history w1)) = 9%nat /\
  length (registrations (history w2)) = 18%nat.
Proof. vm_compute. repeat split. Qed.

Lemma C2_start_from_idle_witness :
  isLightShowPlaying (boot Bench.full) = false /\
  history (exec lightShow_Start (boot Bench.full)) =
    [ SerialPrintln "Starting light show sequence...";
      SerialPrintln "Playing audio";
      PlayMP3 "track001.mp3" 0;
      TimerAfter 7000 LasersWarmup;
      TimerAfter 27500 LEDOn;
      TimerAfter 40000 LasersOn;
      TimerAfter 44000 Pause;
      TimerAfter 45000 LEDOn;
      TimerAfter 45000 LasersOn;
      TimerAfter 58000 LEDOff;
      TimerAfter 110000 Stop;
      TimerAfter 140000 PlayTrack2 ].
Proof.
  split; [reflexivity|].
  exact (proj1 (C2_start_plays_track1_then_registers_nine
                  (boot Bench.full) eq_refl)).
Defined.

(** On a blank card [playMP3] answers 2 (file not found); the card with the
    tracks is the board the run is compared with. *)
Lemma C4_blank_card_witness :
  MP3player_playMP3 "track001.mp3" 0 (board (boot Bench.blank)) =
    (2, Bench.blank) /\
  same_show (boot Bench.blank) (boot Bench.full) /\
  isLightShowPlaying (exec lightShow_Start (boot Bench.blank)) = true.
Proof.
  split; [reflexivity|]. split; [apply same_show_boot|].
  exact (proj1 (C4_playback_failure_does_not_stop_the_show
                  (boot Bench.blank) 2 Bench.blank (boot Bench.full)
                  eq_refl (same_show_boot Bench.blank Bench.full))).
Defined.

(** C5, as stated, fails: a call of [lightShow_Start] leaves auto-start
    pending when it was. *)
Lemma C5_start_leaves_autostart_pending :
  let w' := exec lightShow_Start (boot Bench.full) in
  ~ (isLightShowPlaying w' = true /\ isAutoStartEnabled w' = false).
Proof. vm_compute. intros [_ Hoff]. discriminate Hoff. Qed.

(** The same on a run: the first pass receives [v], starts the show from
    [parse_menu] and skips the auto-start path, which stays pending. *)
Example start_by_command_leaves_autostart_pending :
  let w' := run [Bench.press_v 0] (boot Bench.full) in
  isLightShowPlaying w' = true /\ isAutoStartEnabled w' = true /\
  autostarts [Bench.press_v 0] (boot Bench.full) = O.
Proof. vm_compute. repeat split. Qed.

Lemma C5_autostart_path_witness :
  autostart_due (boot Bench.full) = true /\
  isAutoStartEnabled (exec loop_autostart (boot Bench.full)) = false.
Proof.
  split; [reflexivity|].
  destruct (C5_start_sets_playing_and_loop_clears_autostart (boot Bench.full))
    as (_ & _ & _ & _ & Hauto).
  apply Hauto. reflexivity.
Defined.

(** A run of the whole show on the bench: the first pass auto-starts, the
    stop stage fires in the pass at 117100 ms and clears
    [isLightShowPlaying], and the passes after it do not start again. *)
Lemma C6_whole_show_witness :
  let post := [Bench.idle 7000; Bench.idle 100; Bench.idle 40000;
               Bench.idle 70000; Bench.idle 100; Bench.idle 100] in
  autostart_due (exec loop_service (arrive (Bench.idle 0)
                                      (run [] (boot Bench.full)))) = true /\
  setup (boot Bench.full) <> None /\
  head (received (Bench.idle 0)) <> Some "v"%byte /\
  autostarts ([] ++ Bench.idle 0 :: post) (boot Bench.full) = 1%nat /\
  isLightShowPlaying (run ([] ++ Bench.idle 0 :: post) (boot Bench.full))
    = false /\
  autostarts (Bench.idle 0 :: post)
    (default (boot Bench.full) (setup (boot Bench.full))) = 1%nat.
Proof.
  cbv zeta. split; [reflexivity|]. split; [discriminate|].
  split; [discriminate|].
  destruct (@C6_autostart_exactly_once Bench.Card Bench.shield)
    as (_ & Hfirst & Hboot).
  split; [|split].
  - apply (Hfirst [] (Bench.idle 0)). reflexivity.
  - reflexivity.
  - apply (Hboot Bench.full); [reflexivity|discriminate].
Defined.

Lemma C9_no_pulse_witness :
  -2 <= 0 /\
  exec (laserFlicker (-2)) (boot Bench.full) = boot Bench.full.
Proof.
  split; [lia|].
  apply (C9_laserFlicker_nonpositive (-2) (boot Bench.full)). lia.
Defined.

(** *** Instances of the further properties *)

Lemma setup_effects_witness :
  let w0 := default (boot Bench.full) (setup (boot Bench.full)) in
  setup (boot Bench.full) = Some w0 /\
  isLightShowPlaying w0 = false /\
  isAutoStartEnabled w0 = true.
Proof.
  cbv zeta.
  assert (Hsetup : setup (boot Bench.full) =
                   Some (default (boot Bench.full) (setup (boot Bench.full))))
    by reflexivity.
  split; [exact Hsetup|].
  destruct (setup_effects (Board:=Bench.Card) (boot Bench.full) _ Hsetup)
    as (Hidle & Hauto & _).
  split; [exact Hidle | exact Hauto].
Defined.

(** The letter [s], which the header comment of the file gives as the stop
    command, is ignored like any other byte, also while the show plays. *)
Lemma parse_menu_ignores_s_witness :
  "s"%byte <> "v"%byte /\
  exec (parse_menu "s"%byte) (exec lightShow_Start (boot Bench.full)) =
  exec lightShow_Start (boot Bench.full).
Proof.
  assert (Hkey : "s"%byte <> "v"%byte) by discriminate.
  split; [exact Hkey|].
  exact (proj1 (parse_menu_ignores_other_bytes (Board:=Bench.Card)
                  "s"%byte (exec lightShow_Start (boot Bench.full)) Hkey)).
Defined.


